(** * buildtools / src/bluesky.js : the publish-decision pipeline

    A shallow embedding of [src/bluesky.js] (feed reading, the paginated
    duplicate scan, the link facet of the outgoing post, and the
    orchestration in [postLatestToBluesky]) together with the properties
    the specification states about it.

    JavaScript strings are sequences of UTF-16 code units; [length],
    [indexOf], [includes] and [endsWith] all count and compare code units.
    Values coming back from the network are dynamically typed and are
    modelled by [JsVal].  Effects (console, file system, network, process
    exit) are threaded through an explicit trace of events. *)

From Stdlib Require Import List ZArith NArith Bool Lia String Ascii.
Import ListNotations.

Local Open Scope Z_scope.

(* ===================================================================== *)
(** ** JavaScript strings                                                  *)
(* ===================================================================== *)

Module JsString.

(** A UTF-16 code unit, [0 <= c < 65536]. *)
Definition code_unit := N.

(** A JavaScript string: the sequence of its UTF-16 code units. *)
Definition jsstring := list code_unit.

(** A string literal of the source (all literals of the file are ASCII). *)
Fixpoint js (s : string) : jsstring :=
  match s with
  | EmptyString => []
  | String c s' => N_of_ascii c :: js s'
  end.

(** The empty string literal. *)
Definition empty : jsstring := [].

(** [s.length] *)
Definition length (s : jsstring) : Z := Z.of_nat (List.length s).

(** [s === t] on strings *)
Fixpoint eqb (s t : jsstring) : bool :=
  match s, t with
  | [], [] => true
  | a :: s', b :: t' => (a =? b)%N && eqb s' t'
  | _, _ => false
  end.

(** [s.startsWith(p)] *)
Fixpoint startsWith (s p : jsstring) : bool :=
  match p, s with
  | [], _ => true
  | _ :: _, [] => false
  | a :: p', b :: s' => (a =? b)%N && startsWith s' p'
  end.

(** [s.endsWith(p)]: the last [p.length] code units of [s] are [p]. *)
Definition endsWith (s p : jsstring) : bool :=
  (List.length p <=? List.length s)%nat
  && eqb (skipn (List.length s - List.length p) s) p.

(** [s.indexOf(p)] scanning from position [i]: the smallest index at which
    [p] occurs, or [-1]. *)
Fixpoint indexOf_from (i : Z) (s p : jsstring) : Z :=
  if startsWith s p then i
  else match s with
       | [] => -1
       | _ :: s' => indexOf_from (i + 1) s' p
       end.

Definition indexOf (s p : jsstring) : Z := indexOf_from 0 s p.

(** [s.includes(p)] *)
Definition includes (s p : jsstring) : bool := negb (indexOf s p =? -1).

(** Truthiness of a string: only the empty string is falsy. *)
Definition truthy (s : jsstring) : bool :=
  match s with [] => false | _ => true end.

(** [s || d] for strings. *)
Definition or_else (s d : jsstring) : jsstring := if truthy s then s else d.

(** *** UTF-8 encoding (what [TextEncoder] / [Buffer.from(s, "utf8")] produce)

    This is the unit the AT protocol measures facet ranges in.  Surrogate
    pairs are combined into one code point; a lone surrogate is replaced
    by U+FFFD. *)

Definition is_high_surrogate (c : code_unit) : bool :=
  ((0xD800 <=? c) && (c <=? 0xDBFF))%N.

Definition is_low_surrogate (c : code_unit) : bool :=
  ((0xDC00 <=? c) && (c <=? 0xDFFF))%N.

Fixpoint code_points (s : jsstring) : list N :=
  match s with
  | [] => []
  | c :: rest =>
      if is_high_surrogate c then
        match rest with
        | d :: rest' =>
            if is_low_surrogate d
            then (0x10000 + N.shiftl (c - 0xD800) 10 + (d - 0xDC00))%N
                   :: code_points rest'
            else 0xFFFD%N :: code_points rest
        | [] => [0xFFFD%N]
        end
      else if is_low_surrogate c then 0xFFFD%N :: code_points rest
      else c :: code_points rest
  end.

Definition utf8_of_code_point (cp : N) : list N :=
  (if cp <? 0x80 then [cp]
   else if cp <? 0x800 then
     [N.lor 0xC0 (N.shiftr cp 6); N.lor 0x80 (N.land cp 0x3F)]
   else if cp <? 0x10000 then
     [N.lor 0xE0 (N.shiftr cp 12);
      N.lor 0x80 (N.land (N.shiftr cp 6) 0x3F);
      N.lor 0x80 (N.land cp 0x3F)]
   else
     [N.lor 0xF0 (N.shiftr cp 18);
      N.lor 0x80 (N.land (N.shiftr cp 12) 0x3F);
      N.lor 0x80 (N.land (N.shiftr cp 6) 0x3F);
      N.lor 0x80 (N.land cp 0x3F)])%N.

(** The encoded bytes of a string. *)
Definition utf8_encode (s : jsstring) : list N :=
  flat_map utf8_of_code_point (code_points s).

(** The length of a string in encoded bytes. *)
Definition byteLength (s : jsstring) : Z := Z.of_nat (List.length (utf8_encode s)).

(** Every code unit is below 128. *)
Definition is_ascii (s : jsstring) : bool := forallb (fun c => (c <? 0x80)%N) s.

(** ECMAScript WhiteSpace and LineTerminator code units (what the regular
    expression class [\s] and [String.prototype.trim] treat as white space). *)
Definition is_whitespace (c : code_unit) : bool :=
  existsb (N.eqb c)
    [0x09; 0x0A; 0x0B; 0x0C; 0x0D; 0x20; 0xA0; 0x1680; 0x2000; 0x2001;
     0x2002; 0x2003; 0x2004; 0x2005; 0x2006; 0x2007; 0x2008; 0x2009;
     0x200A; 0x2028; 0x2029; 0x202F; 0x205F; 0x3000; 0xFEFF]%N.

Definition endsWithWhitespace (s : jsstring) : bool :=
  match rev s with
  | [] => false
  | c :: _ => is_whitespace c
  end.

End JsString.

Import JsString.

(* ===================================================================== *)
(** ** The outgoing post record and its link facet                         *)
(* ===================================================================== *)

(** [{ byteStart, byteEnd }] *)
Record FacetIndex := { byteStart : Z; byteEnd : Z }.

(** [{ $type, uri }] *)
Record Feature := { feature_type : jsstring; uri : jsstring }.

(** [{ index, features }] *)
Record Facet := { index : FacetIndex; features : list Feature }.

(** [{ $type, text, createdAt, facets? }] *)
Record PostRecord := {
  record_type : jsstring;
  text : jsstring;
  createdAt : jsstring;
  facets : option (list Facet)
}.

(** [url] is an optional parameter: [None] is [undefined]. [if (url)] holds
    for a non-empty string only. *)
Definition url_given (url : option jsstring) : option jsstring :=
  match url with
  | Some u => if truthy u then Some u else None
  | None => None
  end.

(** Lines 185-223 of [sendBlueskyPost]: the record that is submitted, as a
    function of the two arguments and of the current time. *)
Definition sendBlueskyPost_record
    (text0 : jsstring) (url : option jsstring) (now : jsstring) : PostRecord :=
  let record :=
    {| record_type := js "app.bsky.feed.post";
       text := text0;
       createdAt := now;
       facets := None |} in
  match url_given url with
  | Some u =>
      let urlIndex := indexOf text0 u in
      let '(record_text, byteStart0, byteEnd0) :=
        if negb (urlIndex =? -1) then
          (text record, urlIndex, urlIndex + JsString.length u)
        else
          let separator := if endsWith text0 (js " ") then empty else js " " in
          let t := text0 ++ separator ++ u in
          (t, JsString.length t - JsString.length u, JsString.length t) in
      {| record_type := record_type record;
         text := record_text;
         createdAt := createdAt record;
         facets :=
           Some [ {| index := {| byteStart := byteStart0; byteEnd := byteEnd0 |};
                     features :=
                       [ {| feature_type := js "app.bsky.richtext.facet#link";
                            uri := u |} ] |} ] |}
  | None => record
  end.

(** The range of the (single) facet of a record, if it has one. *)
Definition facet_range (r : PostRecord) : option (Z * Z) :=
  match facets r with
  | Some (f :: _) => Some (byteStart (index f), byteEnd (index f))
  | _ => None
  end.

(** *** The facet the specification describes

    Written from the specification's words: offsets are measured in the
    encoded bytes of the text. *)

(** "[url] occurs verbatim as a substring of [text]" *)
Definition occurs_in (url text0 : jsstring) : Prop :=
  exists a b, text0 = a ++ url ++ b.

(** "byte offset of the first occurrence" of [url] in [text]. *)
Definition spec_byte_offset (text0 url : jsstring) : Z :=
  indexOf (utf8_encode text0) (utf8_encode url).

(** "if [url] occurs verbatim as a substring of [text]": range of the
    existing occurrence. *)
Definition spec_facet_existing (text0 url : jsstring) : Z * Z :=
  (spec_byte_offset text0 url, spec_byte_offset text0 url + byteLength url).

(** "append [url] to [text], separated by one space unless [text] already
    ends with whitespace". *)
Definition spec_appended_text (text0 url : jsstring) : jsstring :=
  if endsWithWhitespace text0 then text0 ++ url else text0 ++ js " " ++ url.


(** The second case of the facet builder as the specification words it:
    the appended text and a range that ends at the byte length of it. *)
Definition appended_as_specified (text0 url : jsstring) : Prop :=
  ~ occurs_in url text0 ->
  forall now,
    let r := sendBlueskyPost_record text0 (Some url) now in
    text r = spec_appended_text text0 url
    /\ facet_range r
       = Some (byteLength (text r) - byteLength url, byteLength (text r)).

(* ===================================================================== *)
(** ** Dynamically typed values and errors                                 *)
(* ===================================================================== *)

(** What a decoded network response can be.  Numbers that occur in these
    responses are integers. *)
#[warnings="-register-all"] Inductive JsVal : Type :=
| VUndefined
| VNull
| VBool (b : bool)
| VNum (n : Z)
| VStr (s : jsstring)
| VArr (elems : list JsVal)
| VObj (fields : list (string * JsVal)).

(** A thrown [Error]; [error.message] is all the source reads of it.  What
    the engine, [node:fs], [rss-parser] and the AT protocol client throw
    are [Error] objects, so a thrown value always has a message. *)
Inductive JsError := Err (message : jsstring).

Definition message (e : JsError) : jsstring := let 'Err m := e in m.

(** The engine's [TypeError]; its wording is the engine's own. *)
Definition TypeError (what : string) : JsError := Err (js what).

(** A pure computation that may throw. *)
Definition Res (A : Type) : Type := (JsError + A)%type.

Definition ok {A} (a : A) : Res A := inr a.
Definition raise {A} (e : JsError) : Res A := inl e.

Definition res_bind {A B} (r : Res A) (k : A -> Res B) : Res B :=
  match r with
  | inl e => inl e
  | inr a => k a
  end.

Notation "'let?' x ':=' c 'in' k" := (res_bind c (fun x => k))
  (at level 10, x name, c at level 100, k at level 200).

(** [!!v] *)
Definition truthyV (v : JsVal) : bool :=
  match v with
  | VUndefined | VNull => false
  | VBool b => b
  | VNum n => negb (n =? 0)
  | VStr s => truthy s
  | VArr _ | VObj _ => true
  end.

Definition nullish (v : JsVal) : bool :=
  match v with
  | VUndefined | VNull => true
  | _ => false
  end.

Fixpoint lookup (k : string) (fields : list (string * JsVal)) : JsVal :=
  match fields with
  | [] => VUndefined
  | (k', v) :: rest => if String.eqb k k' then v else lookup k rest
  end.

(** [v.k] for the property names the source reads ([data], [feed],
    [cursor], [post], [record], [text], [facets], [features], [$type],
    [uri], [handle], [did]); none of them is a built-in property of a
    string, number, boolean or array, so on those the read is [undefined].
    Reading a property of [undefined] or [null] throws. *)
Definition get (v : JsVal) (k : string) : Res JsVal :=
  match v with
  | VUndefined | VNull => raise (TypeError "Cannot read properties of undefined")
  | VObj fields => ok (lookup k fields)
  | _ => ok VUndefined
  end.

(** [v?.k] *)
Definition get_opt (v : JsVal) (k : string) : Res JsVal :=
  if nullish v then ok VUndefined else get v k.

(** [a === b] where [b] is a string. *)
Definition strict_eq_str (a : JsVal) (b : jsstring) : bool :=
  match a with
  | VStr s => JsString.eqb s b
  | _ => false
  end.

(** The strings a [for ... of] over a string yields: one per code point,
    a surrogate pair staying together. *)
Fixpoint string_iter (s : jsstring) : list jsstring :=
  match s with
  | [] => []
  | c :: rest =>
      if is_high_surrogate c then
        match rest with
        | d :: rest' =>
            if is_low_surrogate d then [c; d] :: string_iter rest'
            else [c] :: string_iter rest
        | [] => [[c]]
        end
      else [c] :: string_iter rest
  end.

(** The values a [for (const x of v)] visits; anything but an array or a
    string is not iterable. *)
Definition iterate (v : JsVal) : Res (list JsVal) :=
  match v with
  | VArr l => ok l
  | VStr s => ok (map VStr (string_iter s))
  | _ => raise (TypeError "is not iterable")
  end.

(** [v.includes(x)] for a string [x]: [String.prototype.includes] on a
    string, [Array.prototype.includes] on an array; no other decoded value
    has a callable [includes]. *)
Definition call_includes (v : JsVal) (x : jsstring) : Res bool :=
  match v with
  | VStr s => ok (includes s x)
  | VArr l => ok (existsb (fun e => strict_eq_str e x) l)
  | _ => raise (TypeError "includes is not a function")
  end.

(* ===================================================================== *)
(** ** Effects: the trace of a run                                         *)
(* ===================================================================== *)

Inductive Event :=
| ConsoleLog (args : list JsVal)
| ConsoleWarn (args : list JsVal)
| ConsoleError (args : list JsVal)
| ReadFile (path : jsstring)
| Login (identifier password : jsstring)
| GetAuthorFeed (actor : JsVal) (limit : Z) (cursor : JsVal)
| CreateRecord (repo : JsVal) (collection : jsstring) (record : PostRecord).

Definition Trace := list Event.

(** The network round-trips. *)
Definition is_network (e : Event) : bool :=
  match e with
  | Login _ _ | GetAuthorFeed _ _ _ | CreateRecord _ _ _ => true
  | _ => false
  end.

Definition is_fetch (e : Event) : bool :=
  match e with GetAuthorFeed _ _ _ => true | _ => false end.

Definition is_submission (e : Event) : bool :=
  match e with CreateRecord _ _ _ => true | _ => false end.

Definition network_calls (t : Trace) : list Event := filter is_network t.

(** How a call ends: it returns, it throws, or the process has exited. *)
Inductive Outcome (A : Type) :=
| Ret (a : A)
| Throw (e : JsError)
| Exit (code : Z).

Arguments Ret {A} a.
Arguments Throw {A} e.
Arguments Exit {A} code.

(** A computation extends the trace; [None] means that the loop inside did
    not finish within the iterations it was allotted. *)
Definition M (A : Type) : Type := Trace -> option (Outcome A * Trace).

Definition ret {A} (a : A) : M A := fun t => Some (Ret a, t).

Definition throw {A} (e : JsError) : M A := fun t => Some (Throw e, t).

Definition bind {A B} (m : M A) (k : A -> M B) : M B :=
  fun t =>
    match m t with
    | None => None
    | Some (Ret a, t') => k a t'
    | Some (Throw e, t') => Some (Throw e, t')
    | Some (Exit c, t') => Some (Exit c, t')
    end.

Notation "'let*' x ':=' c 'in' k" := (bind c (fun x => k))
  (at level 10, x name, c at level 100, k at level 200).
Notation "c ';;' k" := (bind c (fun _ => k))
  (at level 100, k at level 200, right associativity).

(** [try { body } catch (error) { handler }] *)
Definition try_catch {A} (body : M A) (handler : JsError -> M A) : M A :=
  fun t =>
    match body t with
    | Some (Throw e, t') => handler e t'
    | r => r
    end.

Definition lift {A} (r : Res A) : M A :=
  match r with
  | inl e => throw e
  | inr a => ret a
  end.

Definition emit (e : Event) : M unit := fun t => Some (Ret tt, t ++ [e]).

(** [process.exit(code)] *)
Definition process_exit {A} (code : Z) : M A := fun t => Some (Exit code, t).

Definition out_of_fuel {A} : M A := fun _ => None.

Definition console_log (args : list JsVal) : M unit := emit (ConsoleLog args).
Definition console_warn (args : list JsVal) : M unit := emit (ConsoleWarn args).
Definition console_error (args : list JsVal) : M unit := emit (ConsoleError args).

(* ===================================================================== *)
(** ** The world the module runs in                                        *)
(* ===================================================================== *)

(** What [rss-parser] hands back: [feed.items], each item with optional
    [title] and [link]. *)
Record RssItem := { item_title : option jsstring; item_link : option jsstring }.
Record RssFeed := { items : option (list RssItem) }.

(** The object [getLatestRSSPost] returns. *)
Record LatestPost := { title : jsstring; link : jsstring }.

(** An [AtpAgent] after [login]: the source reads [agent.session] only. *)
Record Agent := { session : JsVal }.

(** Everything outside the module.  The network answers may depend on what
    happened before (the trace so far). *)
Record World := {
  env_BLUESKY_USERNAME : option jsstring;
  env_BLUESKY_PASSWORD : option jsstring;
  module_dirname : jsstring;
  path_isAbsolute : jsstring -> bool;
  path_type_error : JsVal -> JsError;
  path_join : jsstring -> jsstring -> jsstring;
  readFileSync : jsstring -> Res jsstring;
  parseString : jsstring -> Res RssFeed;
  clock : Trace -> jsstring;
  agent_login : Trace -> jsstring -> jsstring -> Res JsVal;
  getAuthorFeed : Trace -> JsVal -> Z -> JsVal -> Res JsVal;
  createRecord : Trace -> JsVal -> jsstring -> PostRecord -> Res JsVal
}.

(** [process.env.X] is a string or [undefined]; [!process.env.X] holds when
    it is unset or empty. *)
Definition env_truthy (v : option jsstring) : bool :=
  match v with
  | Some s => truthy s
  | None => false
  end.

(** The string a present value is; the callers test for falsiness before,
    or apply [|| empty] after, so that an absent value reads as the empty
    string. *)
Definition opt_value (v : option jsstring) : jsstring :=
  match v with
  | Some s => s
  | None => []
  end.

(* ===================================================================== *)
(** ** The functions of [src/bluesky.js]                                   *)
(* ===================================================================== *)

(** A call that leaves the module: the event is recorded and the world's
    answer, given everything that happened before, is returned or thrown. *)
Definition request {A} (e : Event) (answer : Trace -> Res A) : M A :=
  fun t =>
    match answer t with
    | inl err => Some (Throw err, t ++ [e])
    | inr a => Some (Ret a, t ++ [e])
    end.

(** [new Date().toISOString()] *)
Definition current_time (w : World) : M jsstring :=
  fun t => Some (Ret (clock w t), t).

(** The errors the module creates itself. *)
Definition username_error : JsError :=
  Err (js "BLUESKY_USERNAME environment variable is not set").
Definition password_error : JsError :=
  Err (js "BLUESKY_PASSWORD environment variable is not set").
Definition no_items_error : JsError := Err (js "No items found in RSS feed").
Definition no_link_error : JsError := Err (js "Latest RSS post has no link").
Definition no_text_error : JsError := Err (js "Post text is required").

(** [getBlueskyAgent] *)
Definition getBlueskyAgent (w : World) : M Agent :=
  if negb (env_truthy (env_BLUESKY_USERNAME w)) then throw username_error
  else if negb (env_truthy (env_BLUESKY_PASSWORD w)) then throw password_error
  else
    let identifier := opt_value (env_BLUESKY_USERNAME w) in
    let password := opt_value (env_BLUESKY_PASSWORD w) in
    let* s := request (Login identifier password)
                (fun t => agent_login w t identifier password) in
    ret {| session := s |}.

(** [getLatestRSSPost] *)
Definition getLatestRSSPost (w : World) (rssUrl : jsstring) : M LatestPost :=
  let* rssContent := request (ReadFile rssUrl) (fun _ => readFileSync w rssUrl) in
  let* feed := lift (parseString w rssContent) in
  match items feed with
  | None | Some [] => throw no_items_error
  | Some (latestPost :: _) =>
      ret {| title := or_else (opt_value (item_title latestPost)) empty;
             link := or_else (opt_value (item_link latestPost)) empty |}
  end.

Definition link_feature_type : jsstring := js "app.bsky.richtext.facet#link".

(** The innermost loop of [hasLinkBeenPosted]:
    [for (const feature of facet.features)]; [true] stands for the
    [return true] inside it. *)
Fixpoint check_features (link0 : jsstring) (fs : list JsVal) : Res bool :=
  match fs with
  | [] => ok false
  | feature :: rest =>
      let? ty := get feature "$type" in
      if strict_eq_str ty link_feature_type then
        let? u := get feature "uri" in
        if strict_eq_str u link0 then ok true else check_features link0 rest
      else check_features link0 rest
  end.

(** [for (const facet of post.facets)] *)
Fixpoint check_facets (link0 : jsstring) (fs : list JsVal) : Res bool :=
  match fs with
  | [] => ok false
  | facet :: rest =>
      let? feats := get facet "features" in
      let? found :=
        (if truthyV feats then
           let? l := iterate feats in check_features link0 l
         else ok false) in
      if found then ok true else check_facets link0 rest
  end.

(** The body of [for (const feedItem of response.data.feed)] after
    [postsChecked++]: [true] stands for [return true], [false] for falling
    through to the next item. *)
Definition check_item (link0 : jsstring) (feedItem : JsVal) : Res bool :=
  let? p := get feedItem "post" in
  let? post := get_opt p "record" in
  if negb (truthyV post) then ok false
  else
    let? t := get post "text" in
    let? inText := (if truthyV t then call_includes t link0 else ok false) in
    if inText then ok true
    else
      let? fs := get post "facets" in
      if truthyV fs then
        let? l := iterate fs in check_facets link0 l
      else ok false.

(** How the [for] over one page ends. *)
Inductive PageResult :=
| Found
| NotFound (postsChecked : Z).

(** [for (const feedItem of response.data.feed) { postsChecked++; ... }] *)
Fixpoint check_items (link0 : jsstring) (feed : list JsVal) (postsChecked : Z)
  : Res PageResult :=
  match feed with
  | [] => ok (NotFound postsChecked)
  | feedItem :: rest =>
      let postsChecked := postsChecked + 1 in
      let? found := check_item link0 feedItem in
      if found then ok Found else check_items link0 rest postsChecked
  end.

Definition maxPostsToCheck : Z := 100.

(** The [while (hasMore && postsChecked < maxPostsToCheck)] loop and the
    [return false] after it.  [fuel] bounds the number of iterations: the
    loop of the source has no bound of its own when the server keeps
    answering empty pages with a cursor. *)
Fixpoint scan_loop (w : World) (fuel : nat) (handle : JsVal) (link0 : jsstring)
    (cursor : JsVal) (hasMore : bool) (postsChecked : Z) : M bool :=
  if hasMore && (postsChecked <? maxPostsToCheck) then
    match fuel with
    | O => out_of_fuel
    | S fuel' =>
        let* response :=
          request (GetAuthorFeed handle 100 cursor)
            (fun t => getAuthorFeed w t handle 100 cursor) in
        let* data := lift (get response "data") in
        if negb (truthyV data) then ret false
        else
          let* feed := lift (get data "feed") in
          if negb (truthyV feed) then ret false
          else
            let* feedItems := lift (iterate feed) in
            let* r := lift (check_items link0 feedItems postsChecked) in
            match r with
            | Found => ret true
            | NotFound postsChecked' =>
                let* cursor' := lift (get data "cursor") in
                scan_loop w fuel' handle link0 cursor' (truthyV cursor') postsChecked'
            end
    end
  else ret false.

(** [agent.session.handle || agent.session.did] *)
Definition agent_handle (agent : Agent) : Res JsVal :=
  let? h := get (session agent) "handle" in
  if truthyV h then ok h else get (session agent) "did".

(** The [try] block of [hasLinkBeenPosted]. *)
Definition hasLinkBeenPosted_try (w : World) (fuel : nat) (agent : Agent)
    (link0 : jsstring) : M bool :=
  let* handle := lift (agent_handle agent) in
  scan_loop w fuel handle link0 VUndefined true 0.

(** [hasLinkBeenPosted] *)
Definition hasLinkBeenPosted (w : World) (fuel : nat) (agent : Agent)
    (link0 : jsstring) : M bool :=
  try_catch (hasLinkBeenPosted_try w fuel agent link0)
    (fun error =>
       console_warn [VStr (js "Warning: Could not search for previous posts:");
                     VStr (message error)] ;;
       ret false).

(** [sendBlueskyPost] *)
Definition sendBlueskyPost (w : World) (text0 : jsstring) (url : option jsstring)
  : M JsVal :=
  if negb (truthy text0) then throw no_text_error
  else
    let* agent := getBlueskyAgent w in
    let* now := current_time w in
    let record := sendBlueskyPost_record text0 url now in
    let* repo := lift (get (session agent) "did") in
    let* response :=
      request (CreateRecord repo (js "app.bsky.feed.post") record)
        (fun t => createRecord w t repo (js "app.bsky.feed.post") record) in
    ret response.

(** The [try] block of [postLatestToBluesky]. *)
Definition postLatestToBluesky_try (w : World) (fuel : nat) (rssPath : jsstring)
  : M unit :=
  console_log [VStr (js "Reading RSS feed...")] ;;
  let* latestPost := getLatestRSSPost w rssPath in
  if negb (truthy (link latestPost)) then throw no_link_error
  else
    console_log [VStr (js "Latest post: " ++ title latestPost)] ;;
    console_log [VStr (js "Link: " ++ link latestPost)] ;;
    let* agent := getBlueskyAgent w in
    console_log [VStr (js "Checking if link has been posted before...")] ;;
    let* alreadyPosted := hasLinkBeenPosted w fuel agent (link latestPost) in
    if alreadyPosted then
      console_log [VStr (js "This link has already been posted. Skipping.")] ;;
      ret tt
    else
      let postText := or_else (title latestPost) (js "New post") in
      console_log [VStr (js "Posting to Bluesky...")] ;;
      let* response := sendBlueskyPost w postText (Some (link latestPost)) in
      let* data := lift (get response "data") in
      let* uri0 := lift (get data "uri") in
      console_log [VStr (js "Post created successfully:"); uri0].

(** [path.isAbsolute(rssUrl) ? rssUrl : join(__dirname, rssUrl)], for a
    string [rssUrl]. *)
Definition rssPath_of (w : World) (rssUrl : jsstring) : jsstring :=
  if path_isAbsolute w rssUrl then rssUrl
  else path_join w (module_dirname w) rssUrl.

(** [postLatestToBluesky].  The first statement, which computes [rssPath],
    stands before the [try]: [path.isAbsolute] validates its argument and
    throws a [TypeError] for anything that is not a string (so for the
    call without an argument, where [rssUrl] is [undefined]), and that
    error leaves the function uncaught. *)
Definition postLatestToBluesky (w : World) (fuel : nat) (rssUrl : JsVal)
  : M unit :=
  match rssUrl with
  | VStr rssUrl =>
      let rssPath := rssPath_of w rssUrl in
      try_catch (postLatestToBluesky_try w fuel rssPath)
        (fun error =>
           console_error [VStr (js "Error:"); VStr (message error)] ;;
           process_exit 1)
  | _ => throw (path_type_error w rssUrl)
  end.

(* ===================================================================== *)
(** ** Well-formed histories                                               *)
(* ===================================================================== *)

(** The shape the listing endpoint documents for a post record: a text and
    facets, each facet with features, each feature with a [$type] and a
    [uri]; every field is optional. *)
Record HFeature := { hf_type : option jsstring; hf_uri : option jsstring }.
Record HFacet := { hfacet_features : option (list HFeature) }.
Record HPost := { hp_text : option jsstring; hp_facets : option (list HFacet) }.

(** An item of a history page: [None] is an item that carries no readable
    post record. *)
Definition HItem := option HPost.

Definition enc_opt_str (k : string) (v : option jsstring) : list (string * JsVal) :=
  match v with
  | Some s => [(k, VStr s)]
  | None => []
  end.

Definition enc_feature (f : HFeature) : JsVal :=
  VObj (enc_opt_str "$type" (hf_type f) ++ enc_opt_str "uri" (hf_uri f)).

Definition enc_facet (f : HFacet) : JsVal :=
  VObj (match hfacet_features f with
        | Some l => [("features"%string, VArr (map enc_feature l))]
        | None => []
        end).

Definition enc_post (p : HPost) : JsVal :=
  VObj (enc_opt_str "text" (hp_text p)
        ++ match hp_facets p with
           | Some l => [("facets"%string, VArr (map enc_facet l))]
           | None => []
           end).

Definition enc_item (i : HItem) : JsVal :=
  match i with
  | Some p => VObj [("post"%string, VObj [("record"%string, enc_post p)])]
  | None => VObj [("post"%string, VObj [])]
  end.

(** The specification's test on one post: "(a) exact substring match of
    [targetUrl] in the post's rendered text, or (b) any attached facet
    whose referenced URL equals [targetUrl] exactly". *)
Definition feature_links_to (targetUrl : jsstring) (f : HFeature) : bool :=
  match hf_type f, hf_uri f with
  | Some ty, Some u => JsString.eqb ty link_feature_type && JsString.eqb u targetUrl
  | _, _ => false
  end.

Definition facet_links_to (targetUrl : jsstring) (f : HFacet) : bool :=
  match hfacet_features f with
  | Some l => existsb (feature_links_to targetUrl) l
  | None => false
  end.

Definition post_mentions (targetUrl : jsstring) (p : HPost) : bool :=
  match hp_text p with
  | Some s => includes s targetUrl
  | None => false
  end
  || match hp_facets p with
     | Some l => existsb (facet_links_to targetUrl) l
     | None => false
     end.

Definition item_mentions (targetUrl : jsstring) (i : HItem) : bool :=
  match i with
  | Some p => post_mentions targetUrl p
  | None => false
  end.

(** A history served page by page.  The continuation cursor of page [i]
    is a token of [i + 1] code units, present exactly when a further page
    exists; the request's cursor selects the page. *)
Definition cursor_token (i : nat) : JsVal := VStr (repeat 99%N i).

Definition page_of_cursor (cursor : JsVal) : nat :=
  match cursor with
  | VStr s => List.length s
  | _ => O
  end.

Definition page_response (pages : list (list HItem)) (i : nat) : JsVal :=
  let feed := VArr (map enc_item (nth i pages [])) in
  let cur :=
    if (S i <? List.length pages)%nat
    then [("cursor"%string, cursor_token (S i))] else [] in
  VObj [("data"%string, VObj (("feed"%string, feed) :: cur))].

Definition serve_pages (pages : list (list HItem))
  : Trace -> JsVal -> Z -> JsVal -> Res JsVal :=
  fun _ _ _ cursor => ok (page_response pages (page_of_cursor cursor)).

(** The pages the scan reaches when nothing matches: after each page the
    count of items seen so far is compared with the ceiling. *)
Fixpoint pages_reached (postsChecked : Z) (pages : list (list HItem))
  : list (list HItem) :=
  match pages with
  | [] => []
  | p :: rest =>
      p :: (if postsChecked + Z.of_nat (List.length p) <? maxPostsToCheck
            then pages_reached (postsChecked + Z.of_nat (List.length p)) rest
            else [])
  end.

(** The pages the scan fetches: those reached, up to and including the
    first one that holds a match. *)
Fixpoint pages_fetched (targetUrl : jsstring) (pages : list (list HItem))
  : list (list HItem) :=
  match pages with
  | [] => []
  | p :: rest =>
      if existsb (item_mentions targetUrl) p then [p]
      else p :: pages_fetched targetUrl rest
  end.

(* ===================================================================== *)
(** ** Vocabulary for the statements about the scan                        *)
(* ===================================================================== *)

(** The fetch issued at trace [t] with cursor [cursor] is answered by a
    page: [response.data.feed] iterates to [feedItems] and
    [response.data.cursor] is [cursor']. *)
Definition answers_page (w : World) (t : Trace) (handle cursor : JsVal)
    (feedItems : list JsVal) (cursor' : JsVal) : Prop :=
  exists response data feed,
    getAuthorFeed w t handle 100 cursor = ok response
    /\ get response "data" = ok data /\ truthyV data = true
    /\ get data "feed" = ok feed /\ truthyV feed = true
    /\ iterate feed = ok feedItems
    /\ get data "cursor" = ok cursor'.


(** The cursor sent with the request for page [i] of a paged history. *)
Definition request_cursor (i : nat) : JsVal :=
  match i with
  | O => VUndefined
  | S _ => cursor_token i
  end.

(** The requests for pages [from], [from + 1], ... ([n] of them). *)
Definition fetch_events (handle : JsVal) (from n : nat) : list Event :=
  map (fun i => GetAuthorFeed handle 100 (request_cursor i)) (seq from n).

(** The specification's bound on the scan: what lies beyond the first 100
    items of the history is not found. *)
Definition ceiling_hides_later_items (pages : list (list HItem)) (targetUrl : jsstring)
  : Prop :=
  forall w fuel agent t o t',
    getAuthorFeed w = serve_pages pages ->
    hasLinkBeenPosted w fuel agent targetUrl t = Some (o, t') ->
    existsb (item_mentions targetUrl) (firstn 100 (List.concat pages)) = false ->
    o = Ret false.

(** The specification's result of the scan: [true] exactly when one of the
    first 100 items of the history mentions the URL. *)
Definition true_iff_in_first_100 (pages : list (list HItem)) (targetUrl : jsstring)
  : Prop :=
  forall w fuel agent t b t',
    getAuthorFeed w = serve_pages pages ->
    hasLinkBeenPosted w fuel agent targetUrl t = Some (Ret b, t') ->
    (b = true <-> existsb (item_mentions targetUrl) (firstn 100 (List.concat pages)) = true).

(* ===================================================================== *)
(** ** Sample worlds                                                       *)
(* ===================================================================== *)

Definition sample_link : jsstring := js "https://x.test/a".

Definition sample_session : JsVal :=
  VObj [("handle"%string, VStr (js "user.example"));
        ("did"%string, VStr (js "did:plc:abc"))].

Definition sample_agent : Agent := {| session := sample_session |}.

Definition sample_handle : JsVal := VStr (js "user.example").

Definition sample_feed : RssFeed :=
  {| items := Some [ {| item_title := Some (js "Hello"); item_link := Some sample_link |};
                     {| item_title := Some (js "Older"); item_link := Some (js "https://x.test/0") |} ] |}.

(** The [TypeError] that Node's [path.isAbsolute] throws for an argument
    that is not a string.  Its message ends with a description of the value
    received ([undefined] for the call without an argument); for a number
    Node adds the number in brackets, which is left out here. *)
Definition node_path_type_error (v : JsVal) : JsError :=
  Err (js "The " ++ [34%N] ++ js "path" ++ [34%N]
       ++ js " argument must be of type string. Received "
       ++ match v with
          | VUndefined => js "undefined"
          | VNull => js "null"
          | VBool true => js "type boolean (true)"
          | VBool false => js "type boolean (false)"
          | VNum _ => js "type number"
          | VStr _ => js "type string"
          | VArr _ => js "an instance of Array"
          | VObj _ => js "an instance of Object"
          end).

(** A world with both secrets set, a feed of two entries, and a history
    served page by page. *)
Definition sample_world (pages : list (list HItem)) : World :=
  {| env_BLUESKY_USERNAME := Some (js "user.example");
     env_BLUESKY_PASSWORD := Some (js "app-password");
     module_dirname := js "/site/src";
     path_isAbsolute := fun p => startsWith p (js "/");
     path_type_error := node_path_type_error;
     path_join := fun a b => a ++ js "/" ++ b;
     readFileSync := fun _ => ok (js "<rss/>");
     parseString := fun _ => ok sample_feed;
     clock := fun _ => js "2026-01-01T00:00:00.000Z";
     agent_login := fun _ _ _ => ok sample_session;
     getAuthorFeed := serve_pages pages;
     createRecord := fun _ _ _ _ =>
       ok (VObj [("data"%string,
                  VObj [("uri"%string, VStr (js "at://did:plc:abc/app.bsky.feed.post/1"))])]) |}.

(** A post that does not mention the sample link. *)
Definition other_post : HItem :=
  Some {| hp_text := Some (js "hello"); hp_facets := None |}.

(** A post with the link in its text. *)
Definition post_with_link_text (url : jsstring) : HItem :=
  Some {| hp_text := Some (js "New: " ++ url); hp_facets := None |}.

(** A post with the link in a link facet only. *)
Definition post_with_link_facet (url : jsstring) : HItem :=
  Some {| hp_text := Some (js "read this");
          hp_facets :=
            Some [ {| hfacet_features :=
                        Some [ {| hf_type := Some link_feature_type;
                                  hf_uri := Some url |} ] |} ] |}.

(** 99 other posts, then a page whose second item (the 101st of the
    history) has the link in its text. *)
Definition history_99_then_2 : list (list HItem) :=
  [repeat other_post 99; [other_post; post_with_link_text sample_link]].

(** One other post, then a page of 100 whose last item (the 101st of the
    history) has the link in a facet. *)
Definition history_1_then_100 : list (list HItem) :=
  [[other_post]; repeat other_post 99 ++ [post_with_link_facet sample_link]].

(** A full first page of other posts, and the link on the second page. *)
Definition history_100_then_1 : list (list HItem) :=
  [repeat other_post 100; [post_with_link_text sample_link]].

(** The same world with another listing endpoint. *)
Definition with_getAuthorFeed (w : World)
    (f : Trace -> JsVal -> Z -> JsVal -> Res JsVal) : World :=
  {| env_BLUESKY_USERNAME := env_BLUESKY_USERNAME w;
     env_BLUESKY_PASSWORD := env_BLUESKY_PASSWORD w;
     module_dirname := module_dirname w;
     path_isAbsolute := path_isAbsolute w;
     path_type_error := path_type_error w;
     path_join := path_join w;
     readFileSync := readFileSync w;
     parseString := parseString w;
     clock := clock w;
     agent_login := agent_login w;
     getAuthorFeed := f;
     createRecord := createRecord w |}.

(** A world in which every history request fails. *)
Definition offline_world : World :=
  with_getAuthorFeed (sample_world [])
    (fun _ _ _ _ => raise (Err (js "fetch failed"))).

(** A world whose listing endpoint answers a number where the page
    should be. *)
Definition garbled_world : World :=
  with_getAuthorFeed (sample_world [])
    (fun _ _ _ _ => ok (VObj [("data"%string, VObj [("feed"%string, VNum 5)])])).


Definition search_warning (e : JsError) : Event :=
  ConsoleWarn [VStr (js "Warning: Could not search for previous posts:");
               VStr (message e)].

(** The specification's account of the network calls of a run that
    submits: one authentication, the history requests, one submission. *)
Definition one_authentication_per_run (w : World) (fuel : nat) (rssUrl : jsstring)
  : Prop :=
  forall o t,
    postLatestToBluesky w fuel (VStr rssUrl) [] = Some (o, t) ->
    existsb is_submission t = true ->
    exists identifier password fetches submission,
      forallb is_fetch fetches = true
      /\ is_submission submission = true
      /\ network_calls t = Login identifier password :: fetches ++ [submission].

(** The login request made with the two secrets of the world. *)
Definition login_of (w : World) : Event :=
  Login (opt_value (env_BLUESKY_USERNAME w)) (opt_value (env_BLUESKY_PASSWORD w)).

Definition reading_log : Event := ConsoleLog [VStr (js "Reading RSS feed...")].

Definition checking_log : Event :=
  ConsoleLog [VStr (js "Checking if link has been posted before...")].

Definition skipping_log : Event :=
  ConsoleLog [VStr (js "This link has already been posted. Skipping.")].

Definition error_log (e : JsError) : Event :=
  ConsoleError [VStr (js "Error:"); VStr (message e)].

(** The two lines logged once the latest entry is known. *)
Definition latest_logs (latestPost : LatestPost) : list Event :=
  [ConsoleLog [VStr (js "Latest post: " ++ title latestPost)];
   ConsoleLog [VStr (js "Link: " ++ link latestPost)]].

(** The same world with other secrets. *)
Definition with_secrets (w : World) (username password : option jsstring) : World :=
  {| env_BLUESKY_USERNAME := username;
     env_BLUESKY_PASSWORD := password;
     module_dirname := module_dirname w;
     path_isAbsolute := path_isAbsolute w;
     path_type_error := path_type_error w;
     path_join := path_join w;
     readFileSync := readFileSync w;
     parseString := parseString w;
     clock := clock w;
     agent_login := agent_login w;
     getAuthorFeed := getAuthorFeed w;
     createRecord := createRecord w |}.

(** A world in which the password is not set. *)
Definition world_without_password : World :=
  with_secrets (sample_world []) (Some (js "user.example")) None.

(** A history whose first page has the sample link in a facet. *)
Definition history_with_link : list (list HItem) :=
  [[other_post; post_with_link_facet sample_link; other_post]; [other_post]].


(** The same world with another feed parser. *)
Definition with_parseString (w : World) (f : jsstring -> Res RssFeed) : World :=
  {| env_BLUESKY_USERNAME := env_BLUESKY_USERNAME w;
     env_BLUESKY_PASSWORD := env_BLUESKY_PASSWORD w;
     module_dirname := module_dirname w;
     path_isAbsolute := path_isAbsolute w;
     path_type_error := path_type_error w;
     path_join := path_join w;
     readFileSync := readFileSync w;
     parseString := f;
     clock := clock w;
     agent_login := agent_login w;
     getAuthorFeed := getAuthorFeed w;
     createRecord := createRecord w |}.

(** A world in which the password is not set and the feed has no items. *)
Definition world_without_password_or_items : World :=
  with_parseString world_without_password (fun _ => ok {| items := Some [] |}).

(** The specification's account of a run without a secret: it fails with
    the configuration error, and without a network call. *)
Definition config_error_on_missing_secret (w : World) : Prop :=
  env_BLUESKY_USERNAME w = None \/ env_BLUESKY_PASSWORD w = None ->
  forall fuel rssUrl,
    exists e t,
      postLatestToBluesky w fuel (VStr rssUrl) [] = Some (Exit 1, t ++ [error_log e])
      /\ (e = username_error \/ e = password_error)
      /\ network_calls (t ++ [error_log e]) = [].

(** How one iteration of the loop ends, once its request is answered:
    the function returns ([return true] inside the page, or [break] and the
    [return false] after the loop), or the loop goes round again with a new
    cursor and count. *)
Inductive Iteration :=
| Returns (b : bool)
| Continues (cursor : JsVal) (postsChecked : Z).

(** The body of the [while] after the [await], as a function of the
    response; it is what [scan_loop] does in line (see [scan_loop_unfold]). *)
Definition scan_page (link0 : jsstring) (response : JsVal) (postsChecked : Z)
  : Res Iteration :=
  let? data := get response "data" in
  if negb (truthyV data) then ok (Returns false)
  else
    let? feed := get data "feed" in
    if negb (truthyV feed) then ok (Returns false)
    else
      let? feedItems := iterate feed in
      let? r := check_items link0 feedItems postsChecked in
      match r with
      | Found => ok (Returns true)
      | NotFound postsChecked' =>
          let? cursor' := get data "cursor" in
          ok (Continues cursor' postsChecked')
      end.

(* ===================================================================== *)
(** ** Vocabulary for the further properties                               *)
(* ===================================================================== *)

(** The requests [fs], issued from trace [t] on, follow the cursors: the
    first carries [cursor], and each next one carries the cursor that the
    answer to the one before it held. *)
Fixpoint follows_cursors (w : World) (handle : JsVal) (t : Trace)
    (cursor : JsVal) (fs : list Event) : Prop :=
  match fs with
  | [] => True
  | e :: rest =>
      e = GetAuthorFeed handle 100 cursor
      /\ (rest = []
          \/ exists response data cursor',
               getAuthorFeed w t handle 100 cursor = ok response
               /\ get response "data" = ok data
               /\ get data "cursor" = ok cursor'
               /\ truthyV cursor' = true
               /\ follows_cursors w handle (t ++ [e]) cursor' rest)
  end.

(** A page with a malformed item between two posts: the second post has
    the link. *)
Definition page_with_null_item : JsVal :=
  VArr [enc_item other_post; VNull; enc_item (post_with_link_text sample_link)].

(** A page on which the post with the link comes before the malformed
    item. *)
Definition page_with_late_null_item : JsVal :=
  VArr [enc_item other_post; enc_item (post_with_link_text sample_link); VNull].

(** A world whose listing endpoint answers the given feed value, without a
    cursor. *)
Definition world_answering (feed : JsVal) : World :=
  with_getAuthorFeed (sample_world [])
    (fun _ _ _ _ => ok (VObj [("data"%string, VObj [("feed"%string, feed)])])).

(** A world whose listing endpoint answers an object without [data]. *)
Definition world_without_data : World :=
  with_getAuthorFeed (sample_world []) (fun _ _ _ _ => ok (VObj [])).

(** A computation that adds to the trace nothing but events of the class
    [P]. *)
Definition emits (P : Event -> bool) {A} (m : M A) : Prop :=
  forall t o t', m t = Some (o, t') -> exists evs, t' = t ++ evs /\ forallb P evs = true.

Definition is_console_error (e : Event) : bool :=
  match e with ConsoleError _ => true | _ => false end.

Definition is_read (e : Event) : bool :=
  match e with ReadFile _ => true | _ => false end.

Definition posting_log : Event := ConsoleLog [VStr (js "Posting to Bluesky...")].

Definition created_log (uri0 : JsVal) : Event :=
  ConsoleLog [VStr (js "Post created successfully:"); uri0].

(** A world in which the feed's first entry has no link. *)
Definition world_without_link : World :=
  with_parseString (sample_world [])
    (fun _ => ok {| items := Some [ {| item_title := Some (js "Hello");
                                       item_link := None |} ] |}).

(** The same world with another record-creation endpoint. *)
Definition with_createRecord (w : World)
    (f : Trace -> JsVal -> jsstring -> PostRecord -> Res JsVal) : World :=
  {| env_BLUESKY_USERNAME := env_BLUESKY_USERNAME w;
     env_BLUESKY_PASSWORD := env_BLUESKY_PASSWORD w;
     module_dirname := module_dirname w;
     path_isAbsolute := path_isAbsolute w;
     path_type_error := path_type_error w;
     path_join := path_join w;
     readFileSync := readFileSync w;
     parseString := parseString w;
     clock := clock w;
     agent_login := agent_login w;
     getAuthorFeed := getAuthorFeed w;
     createRecord := f |}.

(** A world in which the record creation is rejected. *)
Definition rejecting_world : World :=
  with_createRecord (sample_world []) (fun _ _ _ _ => raise (Err (js "rejected"))).

(** The record as the listing endpoint hands it back, in
    [feedItem.post.record]: the JSON of what was submitted. *)
Definition enc_feature_out (f : Feature) : JsVal :=
  VObj [("$type"%string, VStr (feature_type f)); ("uri"%string, VStr (uri f))].

Definition enc_facet_out (f : Facet) : JsVal :=
  VObj [("index"%string,
         VObj [("byteStart"%string, VNum (byteStart (index f)));
               ("byteEnd"%string, VNum (byteEnd (index f)))]);
        ("features"%string, VArr (map enc_feature_out (features f)))].

Definition enc_record (r : PostRecord) : JsVal :=
  VObj ([("$type"%string, VStr (record_type r));
         ("text"%string, VStr (text r));
         ("createdAt"%string, VStr (createdAt r))]
        ++ match facets r with
           | Some l => [("facets"%string, VArr (map enc_facet_out l))]
           | None => []
           end).

Definition history_item (record : JsVal) : JsVal :=
  VObj [("post"%string, VObj [("record"%string, record)])].

(** The record with another text (a text the server rendered differently). *)
Definition with_text (r : PostRecord) (text' : jsstring) : PostRecord :=
  {| record_type := record_type r;
     text := text';
     createdAt := createdAt r;
     facets := facets r |}.

(** A world in which the login is rejected. *)
Definition world_rejecting_login : World :=
  {| env_BLUESKY_USERNAME := Some (js "user.example");
     env_BLUESKY_PASSWORD := Some (js "wrong");
     module_dirname := js "/site/src";
     path_isAbsolute := fun p => startsWith p (js "/");
     path_type_error := node_path_type_error;
     path_join := fun a b => a ++ js "/" ++ b;
     readFileSync := fun _ => ok (js "<rss/>");
     parseString := fun _ => ok sample_feed;
     clock := fun _ => js "2026-01-01T00:00:00.000Z";
     agent_login := fun _ _ _ => raise (Err (js "Invalid identifier or password"));
     getAuthorFeed := serve_pages [];
     createRecord := fun _ _ _ _ => raise (Err (js "unreachable")) |}.

(* ===================================================================== *)
(** * Properties                                                           *)
(* ===================================================================== *)

(** ** Strings *)

Lemma ascii_not_surrogate c :
  (c <? 0x80)%N = true -> is_high_surrogate c = false /\ is_low_surrogate c = false.
Proof.
  intros H. apply N.ltb_lt in H.
  unfold is_high_surrogate, is_low_surrogate.
  split; apply andb_false_iff; left; apply N.leb_gt; lia.
Qed.

Lemma utf8_encode_ascii s : is_ascii s = true -> utf8_encode s = s.
Proof.
  unfold utf8_encode.
  induction s as [|c s IH]; simpl; intros H; [reflexivity|].
  apply andb_true_iff in H as [Hc Hs].
  destruct (ascii_not_surrogate c Hc) as [Hh Hl].
  rewrite Hh, Hl. simpl. unfold utf8_of_code_point at 1. rewrite Hc. simpl.
  now rewrite IH.
Qed.

Lemma byteLength_ascii s : is_ascii s = true -> byteLength s = JsString.length s.
Proof. intros H. unfold byteLength. now rewrite utf8_encode_ascii. Qed.

Lemma is_ascii_app a b : is_ascii (a ++ b) = is_ascii a && is_ascii b.
Proof. apply forallb_app. Qed.

Lemma length_app a b : JsString.length (a ++ b) = JsString.length a + JsString.length b.
Proof. unfold JsString.length. rewrite List.length_app. lia. Qed.

Lemma eqb_refl s : JsString.eqb s s = true.
Proof. induction s; simpl; [reflexivity|]. now rewrite N.eqb_refl. Qed.

Lemma eqb_eq s t : JsString.eqb s t = true <-> s = t.
Proof.
  split.
  - revert t. induction s as [|a s IH]; destruct t as [|b t]; simpl; try discriminate; auto.
    intros H. apply andb_true_iff in H as [H1 H2].
    apply N.eqb_eq in H1. subst. f_equal. auto.
  - intros ->. apply eqb_refl.
Qed.

(** [startsWith s p] holds exactly when [p] is a prefix of [s]. *)
Lemma startsWith_spec s p : startsWith s p = true <-> exists r, s = p ++ r.
Proof.
  revert s. induction p as [|a p IH]; intros s; simpl.
  - split; [intros _; now exists s | intros _; now destruct s].
  - destruct s as [|b s]; simpl.
    + split; [discriminate | intros [r Hr]; discriminate].
    + rewrite andb_true_iff, N.eqb_eq, IH. split.
      * intros [-> [r ->]]. now exists r.
      * intros [r Hr]. injection Hr as -> ->. split; [reflexivity | now exists r].
Qed.

Lemma startsWith_nil s : startsWith s [] = true.
Proof. now destruct s. Qed.

(** [indexOf] answers the first position at which the pattern starts, or
    [-1] when it starts nowhere. *)
Lemma indexOf_from_spec s p i :
  (indexOf_from i s p = -1 /\ forall a b, s = a ++ b -> startsWith b p = false)
  \/ (exists a b, s = a ++ b /\ startsWith b p = true
        /\ indexOf_from i s p = i + JsString.length a
        /\ forall a' b', s = a' ++ b' -> (List.length a' < List.length a)%nat ->
                         startsWith b' p = false).
Proof.
  revert i. induction s as [|c s IH]; intros i; cbn [indexOf_from].
  - destruct p as [|x p]; simpl.
    + right. exists [], []. repeat split; try reflexivity.
      * unfold JsString.length; simpl; lia.
      * intros a' b' _ Hlt. simpl in Hlt. lia.
    + left. split; [reflexivity|].
      intros a b Hab. symmetry in Hab. apply app_eq_nil in Hab as [_ ->]. reflexivity.
  - destruct (startsWith (c :: s) p) eqn:Hsw.
    + right. exists [], (c :: s). repeat split; auto.
      * unfold JsString.length; simpl; lia.
      * intros a' b' _ Hlt. simpl in Hlt. lia.
    + destruct (IH (i + 1)) as [[Hi Hno] | (a & b & Hs & Hb & Hi & Hmin)].
      * left. split; [exact Hi|].
        intros a b Hab. destruct a as [|x a]; simpl in Hab.
        -- now subst b.
        -- injection Hab as _ Hab. eauto.
      * right. exists (c :: a), b. subst s. repeat split; auto.
        -- rewrite Hi. unfold JsString.length. simpl List.length. lia.
        -- intros a' b' Hab Hlt. destruct a' as [|x a']; simpl in Hab.
           ++ now subst b'.
           ++ injection Hab as _ Hab. apply (Hmin a' b' Hab). simpl in Hlt. lia.
Qed.

Lemma indexOf_minus_one s p : indexOf s p = -1 <-> ~ occurs_in p s.
Proof.
  unfold indexOf, occurs_in. split.
  - intros H (a & b & Hs).
    destruct (indexOf_from_spec s p 0) as [[_ Hno] | (a0 & b0 & _ & _ & Hi & _)].
    + specialize (Hno a (p ++ b) Hs).
      assert (startsWith (p ++ b) p = true) by (apply startsWith_spec; now exists b).
      congruence.
    + rewrite H in Hi. unfold JsString.length in Hi. lia.
  - intros Hn.
    destruct (indexOf_from_spec s p 0) as [[Hi _] | (a0 & b0 & Hs & Hb & _ & _)]; [exact Hi|].
    apply startsWith_spec in Hb as [r ->]. exfalso. apply Hn. now exists a0, r.
Qed.

(** When [url] occurs, [indexOf] is the length of the text before its
    first occurrence. *)
Lemma indexOf_first s p :
  occurs_in p s ->
  exists a b, s = a ++ p ++ b /\ indexOf s p = JsString.length a
    /\ forall a' b', s = a' ++ p ++ b' -> (List.length a <= List.length a')%nat.
Proof.
  intros Hocc. unfold indexOf.
  destruct (indexOf_from_spec s p 0) as [[Hi _] | (a0 & b0 & Hs & Hb & Hi & Hmin)].
  - apply indexOf_minus_one in Hi. contradiction.
  - apply startsWith_spec in Hb as [r ->]. exists a0, r. repeat split; auto.
    intros a' b' Hs'.
    destruct (Nat.le_gt_cases (List.length a0) (List.length a')) as [|Hlt]; [assumption|].
    specialize (Hmin a' (p ++ b') Hs' Hlt).
    assert (startsWith (p ++ b') p = true) by (apply startsWith_spec; now exists b').
    congruence.
Qed.

(** [endsWith s p] holds exactly when [p] is a suffix of [s]. *)
Lemma endsWith_spec s p : endsWith s p = true <-> exists a, s = a ++ p.
Proof.
  unfold endsWith. rewrite andb_true_iff, Nat.leb_le, eqb_eq. split.
  - intros [Hle Hsk]. exists (firstn (List.length s - List.length p) s).
    remember (List.length s - List.length p)%nat as n.
    rewrite <- Hsk. symmetry. apply firstn_skipn.
  - intros [a ->]. rewrite List.length_app. split; [lia|].
    replace (List.length a + List.length p - List.length p)%nat
      with (List.length a + 0)%nat by lia.
    rewrite skipn_app, Nat.add_0_r, skipn_all, Nat.sub_diag. reflexivity.
Qed.

(** ** The link facet *)

(** The empty string occurs in every text. *)
Lemma not_occurs_truthy url text0 : ~ occurs_in url text0 -> truthy url = true.
Proof.
  intros H. destruct url; [|reflexivity].
  exfalso. apply H. now exists [], text0.
Qed.

Lemma url_given_truthy u : truthy u = true -> url_given (Some u) = Some u.
Proof. intros H. simpl. now rewrite H. Qed.

(** What the code computes when the URL is already in the text: the range
    is counted in UTF-16 code units from the first occurrence. *)
Lemma facet_existing_code_units text0 url now :
  truthy url = true -> occurs_in url text0 ->
  exists a b,
    text0 = a ++ url ++ b
    /\ (forall a' b', text0 = a' ++ url ++ b' -> (List.length a <= List.length a')%nat)
    /\ text (sendBlueskyPost_record text0 (Some url) now) = text0
    /\ facet_range (sendBlueskyPost_record text0 (Some url) now)
       = Some (JsString.length a, JsString.length a + JsString.length url).
Proof.
  intros Hu Hocc.
  destruct (indexOf_first _ _ Hocc) as (a & b & Hs & Hi & Hmin).
  exists a, b. split; [exact Hs|]. split; [exact Hmin|].
  unfold sendBlueskyPost_record. rewrite (url_given_truthy _ Hu).
  cbv zeta. rewrite Hi.
  assert (Hne : (JsString.length a =? -1) = false).
  { apply Z.eqb_neq. unfold JsString.length. lia. }
  rewrite Hne. simpl. split; reflexivity.
Qed.

(** On ASCII input a code unit is a byte, and the range is the one the
    specification asks for. *)
Lemma facet_existing_ascii text0 url now :
  truthy url = true -> occurs_in url text0 ->
  is_ascii text0 = true -> is_ascii url = true ->
  text (sendBlueskyPost_record text0 (Some url) now) = text0
  /\ facet_range (sendBlueskyPost_record text0 (Some url) now)
     = Some (spec_facet_existing text0 url).
Proof.
  intros Hu Hocc Ht Hua.
  destruct (facet_existing_code_units _ _ now Hu Hocc) as (a & b & Hs & Hmin & Htext & Hr).
  split; [exact Htext|]. rewrite Hr.
  unfold spec_facet_existing, spec_byte_offset.
  rewrite (utf8_encode_ascii _ Ht), (utf8_encode_ascii _ Hua), (byteLength_ascii _ Hua).
  destruct (indexOf_first _ _ Hocc) as (a1 & b1 & Hs1 & Hi1 & Hmin1).
  rewrite Hi1.
  assert (List.length a = List.length a1).
  { apply Nat.le_antisymm; [apply (Hmin _ _ Hs1) | apply (Hmin1 _ _ Hs)]. }
  unfold JsString.length. now rewrite H.
Qed.

(** C1, at a text with one non-ASCII character before the URL: the text is
    [U+00E9, space, "https://x.test/a"].  The URL starts at code unit 2 but
    at byte 3 of the encoded text (U+00E9 takes two bytes); the facet built
    by [sendBlueskyPost] carries [byteStart = 2] and [byteEnd = 18], where
    the byte offsets of the occurrence are 3 and 19. *)
Theorem facet_offsets_count_code_units :
  let text0 := 0xE9%N :: js " https://x.test/a" in
  let url := js "https://x.test/a" in
  let r := sendBlueskyPost_record text0 (Some url) (js "2026-01-01T00:00:00.000Z") in
  occurs_in url text0
  /\ text r = text0
  /\ facet_range r = Some (2, 18)
  /\ spec_facet_existing text0 url = (3, 19).
Proof.
  cbv zeta. split.
  - exists [0xE9%N; 32%N], []. reflexivity.
  - vm_compute. repeat split; reflexivity.
Qed.

(** C6 fails on a text that ends with a tab: the text is ["a\t"], the URL
    ["u"].  The tab is white space, so the specification appends the URL
    directly; [sendBlueskyPost] tests for a trailing U+0020 only and puts
    a space in between. *)
Lemma appended_after_tab_counterexample :
  ~ appended_as_specified [97%N; 9%N] [117%N].
Proof.
  intros H.
  assert (Hno : ~ occurs_in [117%N] [97%N; 9%N]).
  { apply indexOf_minus_one. reflexivity. }
  destruct (H Hno []) as [Ht _].
  vm_compute in Ht. discriminate Ht.
Qed.

(** C6, amended: when [url] does not occur in [text], the submitted text is
    [text], then one space unless [text] ends with the space character
    U+0020, then [url].  For ASCII [text] and [url] the facet locates the
    appended [url] in bytes: it starts where [text] and the separator end,
    and [byteEnd] is the byte length of the submitted text. *)
Theorem appended_url_facet (text0 url now : jsstring) :
  ~ occurs_in url text0 ->
  let r := sendBlueskyPost_record text0 (Some url) now in
  let separator := if endsWith text0 (js " ") then empty else js " " in
  text r = text0 ++ separator ++ url
  /\ (is_ascii text0 = true -> is_ascii url = true ->
      facet_range r
        = Some (byteLength (text0 ++ separator), byteLength (text r))
      /\ byteLength (text r) = byteLength (text0 ++ separator) + byteLength url).
Proof.
  intros Hno. cbv zeta.
  assert (Hu := not_occurs_truthy _ _ Hno).
  apply indexOf_minus_one in Hno.
  unfold sendBlueskyPost_record. rewrite (url_given_truthy _ Hu).
  cbv zeta. rewrite Hno. simpl negb. cbv iota beta.
  set (sep := if endsWith text0 (js " ") then empty else js " ").
  simpl text. split; [reflexivity|].
  intros Ht Hua. unfold facet_range. simpl.
  assert (Hsep : is_ascii sep = true) by (unfold sep; destruct (endsWith _ _); reflexivity).
  assert (H1 : is_ascii (text0 ++ sep) = true) by (rewrite is_ascii_app, Ht, Hsep; reflexivity).
  assert (H2 : is_ascii (text0 ++ sep ++ url) = true).
  { rewrite !is_ascii_app, Ht, Hsep, Hua. reflexivity. }
  rewrite (byteLength_ascii _ H1), (byteLength_ascii _ H2), (byteLength_ascii _ Hua).
  rewrite (app_assoc text0 sep url), (length_app (text0 ++ sep) url).
  split; [f_equal; f_equal; lia | reflexivity].
Qed.

Lemma appended_url_facet_witness :
  let r := sendBlueskyPost_record (js "Check this out")
             (Some (js "https://x.test/a")) (js "2026-01-01T00:00:00.000Z") in
  text r = js "Check this out https://x.test/a"
  /\ facet_range r = Some (15, 31)
  /\ byteLength (text r) = 31.
Proof.
  cbv zeta.
  assert (Hno : ~ occurs_in (js "https://x.test/a") (js "Check this out")).
  { apply indexOf_minus_one. vm_compute. reflexivity. }
  destruct (appended_url_facet _ _ (js "2026-01-01T00:00:00.000Z") Hno) as [Ht Hf].
  destruct (Hf eq_refl eq_refl) as [Hr Hb].
  split; [exact Ht|]. split; [exact Hr | exact Hb].
Defined.

(** ** One page of the history *)

(** Every item of a page that is gone through adds one to the count. *)
Lemma check_items_count link0 feed : forall pc pc',
  check_items link0 feed pc = ok (NotFound pc') ->
  pc' = pc + Z.of_nat (List.length feed).
Proof.
  induction feed as [|i feed IH]; intros pc pc' H; simpl in H.
  - injection H as <-. simpl. lia.
  - destruct (check_item link0 i) as [e|[|]]; simpl in H; try discriminate.
    apply IH in H. simpl List.length. lia.
Qed.

Lemma check_features_enc link0 l :
  check_features link0 (map enc_feature l) = ok (existsb (feature_links_to link0) l).
Proof.
  induction l as [|f l IH]; [reflexivity|].
  destruct f as [[ty|] [u|]]; cbn -[link_feature_type JsString.eqb];
    unfold feature_links_to; cbn -[link_feature_type JsString.eqb].
  - destruct (JsString.eqb ty link_feature_type); cbn -[link_feature_type JsString.eqb].
    + destruct (JsString.eqb u link0); [reflexivity | exact IH].
    + exact IH.
  - destruct (JsString.eqb ty link_feature_type); cbn -[link_feature_type JsString.eqb]; exact IH.
  - exact IH.
  - exact IH.
Qed.

Lemma check_facets_enc link0 l :
  check_facets link0 (map enc_facet l) = ok (existsb (facet_links_to link0) l).
Proof.
  induction l as [|f l IH]; [reflexivity|].
  destruct f as [[feats|]]; cbn -[check_features]; unfold facet_links_to at 1; cbn -[check_features].
  - rewrite check_features_enc. cbn.
    destruct (existsb (feature_links_to link0) feats); [reflexivity | exact IH].
  - exact IH.
Qed.

Lemma includes_empty_text url : truthy url = true -> includes [] url = false.
Proof. destruct url; [discriminate | reflexivity]. Qed.

(** On a well-formed item the code's test is the specification's test. *)
Lemma check_item_enc link0 i :
  truthy link0 = true ->
  check_item link0 (enc_item i) = ok (item_mentions link0 i).
Proof.
  intros Hl. destruct i as [[[s|] [fs|]]|]; cbn -[check_facets includes];
    unfold post_mentions; cbn -[check_facets includes].
  - destruct s as [|c s]; cbn -[check_facets includes].
    + rewrite check_facets_enc, (includes_empty_text _ Hl). reflexivity.
    + destruct (includes (c :: s) link0); cbn -[check_facets]; [reflexivity|].
      apply check_facets_enc.
  - destruct s as [|c s]; cbn -[includes].
    + now rewrite (includes_empty_text _ Hl).
    + destruct (includes (c :: s) link0); reflexivity.
  - apply check_facets_enc.
  - reflexivity.
  - reflexivity.
Qed.

Lemma check_items_enc link0 (p : list HItem) pc :
  truthy link0 = true ->
  check_items link0 (map enc_item p) pc
  = ok (if existsb (item_mentions link0) p then Found
        else NotFound (pc + Z.of_nat (List.length p))).
Proof.
  intros Hl. revert pc. induction p as [|i p IH]; intros pc.
  - simpl. now rewrite Z.add_0_r.
  - cbn -[check_item enc_item Z.of_nat]. rewrite (check_item_enc _ _ Hl). cbn -[Z.of_nat enc_item].
    destruct (item_mentions link0 i); cbn -[Z.of_nat enc_item]; [reflexivity|].
    rewrite IH. destruct (existsb _ p); [reflexivity|].
    do 2 f_equal. lia.
Qed.

(** ** The pagination loop *)

Section Scan.

Variable w : World.
Variable handle : JsVal.
Variable link0 : jsstring.

(** The request of one iteration. *)
Local Notation "'fetch' c" := (GetAuthorFeed handle 100 c) (at level 10, c at level 9).

(** At the head of the loop: no cursor, or the ceiling reached, ends the
    scan with [false] and without a request. *)
Lemma scan_loop_stop fuel cursor hasMore pc t :
  hasMore = false \/ maxPostsToCheck <= pc ->
  scan_loop w fuel handle link0 cursor hasMore pc t = Some (Ret false, t).
Proof.
  intros H.
  assert (Hc : hasMore && (pc <? maxPostsToCheck) = false).
  { destruct H as [-> | H]; [reflexivity|].
    apply andb_false_iff. right. apply Z.ltb_ge. exact H. }
  destruct fuel; simpl; rewrite Hc; reflexivity.
Qed.

(** One iteration: the request, then what the page makes of the answer. *)
Lemma scan_loop_unfold fuel cursor pc t :
  pc < maxPostsToCheck ->
  scan_loop w (S fuel) handle link0 cursor true pc t
  = match getAuthorFeed w t handle 100 cursor with
    | inl e => Some (Throw e, t ++ [fetch cursor])
    | inr response =>
        match scan_page link0 response pc with
        | inl e => Some (Throw e, t ++ [fetch cursor])
        | inr (Returns b) => Some (Ret b, t ++ [fetch cursor])
        | inr (Continues cursor' pc') =>
            scan_loop w fuel handle link0 cursor' (truthyV cursor') pc'
              (t ++ [fetch cursor])
        end
    end.
Proof.
  intros Hpc. apply Z.ltb_lt in Hpc.
  cbn [scan_loop]. rewrite Hpc. cbn [andb].
  unfold bind at 1. unfold request, scan_page.
  destruct (getAuthorFeed w t handle 100 cursor) as [e|response]; [reflexivity|].
  unfold bind at 1.
  destruct (get response "data") as [e|data]; cbn [lift ret throw res_bind]; [reflexivity|].
  destruct (truthyV data); cbn [negb]; [|reflexivity].
  unfold bind at 1.
  destruct (get data "feed") as [e|feed]; cbn [lift ret throw res_bind]; [reflexivity|].
  destruct (truthyV feed); cbn [negb]; [|reflexivity].
  unfold bind at 1.
  destruct (iterate feed) as [e|feedItems]; cbn [lift ret throw res_bind]; [reflexivity|].
  unfold bind at 1.
  destruct (check_items link0 feedItems pc) as [e|[|pc']];
    cbn [lift ret throw res_bind]; try reflexivity.
  unfold bind at 1.
  destruct (get data "cursor") as [e|cursor']; reflexivity.
Qed.

(** A request that fails throws out of the loop. *)
Lemma scan_loop_fetch_fails fuel cursor pc t e :
  pc < maxPostsToCheck ->
  getAuthorFeed w t handle 100 cursor = raise e ->
  scan_loop w (S fuel) handle link0 cursor true pc t
  = Some (Throw e, t ++ [fetch cursor]).
Proof.
  intros Hpc He. rewrite (scan_loop_unfold _ _ _ _ Hpc).
  unfold raise in He. now rewrite He.
Qed.

(** One iteration on a page. *)
Lemma scan_loop_step fuel cursor pc t feedItems cursor' :
  pc < maxPostsToCheck ->
  answers_page w t handle cursor feedItems cursor' ->
  scan_loop w (S fuel) handle link0 cursor true pc t
  = match check_items link0 feedItems pc with
    | inl e => Some (Throw e, t ++ [fetch cursor])
    | inr Found => Some (Ret true, t ++ [fetch cursor])
    | inr (NotFound pc') =>
        scan_loop w fuel handle link0 cursor' (truthyV cursor') pc'
          (t ++ [fetch cursor])
    end.
Proof.
  intros Hpc (response & data & feed & Hr & Hd & Hdt & Hf & Hft & Hit & Hc).
  rewrite (scan_loop_unfold _ _ _ _ Hpc). unfold ok in Hr. rewrite Hr.
  unfold scan_page. rewrite Hd. cbn [res_bind ok]. rewrite Hdt. cbn [negb].
  rewrite Hf. cbn [res_bind ok]. rewrite Hft. cbn [negb].
  rewrite Hit. cbn [res_bind ok].
  destruct (check_items link0 feedItems pc) as [e|[|pc']]; cbn [res_bind]; try reflexivity.
  rewrite Hc. reflexivity.
Qed.

(** The scan adds nothing but history-page requests to the trace, and it
    ends by returning or throwing. *)
Lemma scan_loop_trace fuel : forall cursor hasMore pc t o t',
  scan_loop w fuel handle link0 cursor hasMore pc t = Some (o, t') ->
  exists fs, t' = t ++ fs /\ forallb is_fetch fs = true
             /\ match o with Exit _ => False | _ => True end.
Proof.
  induction fuel as [|fuel IH]; intros cursor hasMore pc t o t' H.
  - simpl in H. destruct (hasMore && (pc <? maxPostsToCheck)); [discriminate|].
    injection H as <- <-. exists []. now rewrite app_nil_r.
  - destruct hasMore.
    2:{ rewrite scan_loop_stop in H by now left.
        injection H as <- <-. exists []. now rewrite app_nil_r. }
    destruct (Z.lt_ge_cases pc maxPostsToCheck) as [Hpc | Hpc].
    2:{ rewrite scan_loop_stop in H by now right.
        injection H as <- <-. exists []. now rewrite app_nil_r. }
    rewrite (scan_loop_unfold _ _ _ _ Hpc) in H.
    destruct (getAuthorFeed w t handle 100 cursor) as [e|response].
    { injection H as <- <-. now exists [fetch cursor]. }
    destruct (scan_page link0 response pc) as [e|[b|cursor' pc']].
    + injection H as <- <-. now exists [fetch cursor].
    + injection H as <- <-. now exists [fetch cursor].
    + apply IH in H as (fs & -> & Hfs & Ho).
      exists (fetch cursor :: fs). rewrite <- app_assoc. auto.
Qed.

(** While the cursor is present and the ceiling is not reached, the next
    thing the loop does is to request a page. *)
Lemma scan_loop_first_fetch fuel cursor pc t o t' :
  pc < maxPostsToCheck ->
  scan_loop w fuel handle link0 cursor true pc t = Some (o, t') ->
  exists rest, t' = t ++ fetch cursor :: rest.
Proof.
  intros Hpc H.
  destruct fuel as [|fuel].
  { apply Z.ltb_lt in Hpc. simpl in H. rewrite Hpc in H. discriminate. }
  rewrite (scan_loop_unfold _ _ _ _ Hpc) in H.
  destruct (getAuthorFeed w t handle 100 cursor) as [e|response].
  { injection H as _ <-. now exists []. }
  destruct (scan_page link0 response pc) as [e|[b|cursor' pc']].
  - injection H as _ <-. now exists [].
  - injection H as _ <-. now exists [].
  - apply scan_loop_trace in H as (fs & -> & _).
    exists fs. now rewrite <- app_assoc.
Qed.

(** The loop has no bound of its own on empty pages, but every page that
    sends the loop round again with a cursor and at least one more item
    counted brings the ceiling nearer: if the server never answers an empty
    page together with a cursor, the scan ends, after at most as many
    requests as the ceiling leaves room for. *)
Lemma scan_loop_terminates :
  (forall t cursor response pc cursor' pc',
     getAuthorFeed w t handle 100 cursor = ok response ->
     scan_page link0 response pc = ok (Continues cursor' pc') ->
     truthyV cursor' = true -> pc < pc') ->
  forall fuel cursor hasMore pc t,
    (Z.to_nat (maxPostsToCheck - pc) <= fuel)%nat ->
    exists o fs,
      scan_loop w fuel handle link0 cursor hasMore pc t = Some (o, t ++ fs)
      /\ forallb is_fetch fs = true
      /\ (List.length fs <= Z.to_nat (maxPostsToCheck - pc))%nat.
Proof.
  intros Hprogress.
  assert (Hstop : forall fuel cursor hasMore pc t,
             hasMore = false \/ maxPostsToCheck <= pc ->
             exists o fs,
               scan_loop w fuel handle link0 cursor hasMore pc t = Some (o, t ++ fs)
               /\ forallb is_fetch fs = true
               /\ (List.length fs <= Z.to_nat (maxPostsToCheck - pc))%nat).
  { intros fuel cursor hasMore pc t H. exists (Ret false), [].
    rewrite app_nil_r, scan_loop_stop by exact H.
    repeat split. cbn [List.length]. lia. }
  induction fuel as [|fuel IH]; intros cursor hasMore pc t Hfuel.
  - apply Hstop. right. unfold maxPostsToCheck in *. lia.
  - destruct hasMore; [|apply Hstop; now left].
    destruct (Z.lt_ge_cases pc maxPostsToCheck) as [Hpc | Hpc];
      [|apply Hstop; now right].
    rewrite (scan_loop_unfold _ _ _ _ Hpc).
    assert (Hone : forall o : Outcome bool,
               exists o' fs,
                 Some (o, t ++ [fetch cursor]) = Some (o', t ++ fs)
                 /\ forallb is_fetch fs = true
                 /\ (List.length fs <= Z.to_nat (maxPostsToCheck - pc))%nat).
    { intros o. exists o, [fetch cursor]. repeat split.
      cbn [List.length]. unfold maxPostsToCheck in *. lia. }
    destruct (getAuthorFeed w t handle 100 cursor) as [e|response] eqn:Hr; [apply Hone|].
    destruct (scan_page link0 response pc) as [e|[b|cursor' pc']] eqn:Hp;
      [apply Hone | apply Hone |].
    destruct (truthyV cursor') eqn:Hcur.
    + assert (Hlt := Hprogress t cursor response pc cursor' pc' Hr Hp Hcur).
      destruct (IH cursor' true pc' (t ++ [fetch cursor])) as (o & fs & E & Hfs & Hlen).
      { unfold maxPostsToCheck in *. lia. }
      exists o, (fetch cursor :: fs). rewrite E, <- app_assoc.
      repeat split; [exact Hfs|].
      cbn [List.length]. unfold maxPostsToCheck in *. lia.
    + exists (Ret false), [fetch cursor].
      rewrite scan_loop_stop by now left.
      repeat split. cbn [List.length]. unfold maxPostsToCheck in *. lia.
Qed.

End Scan.

(** ** The scan as a whole *)

(** [hasLinkBeenPosted] returns a boolean, whatever happens inside: what is
    thrown in the [try] block becomes a warning and [false]. *)
Lemma hasLinkBeenPosted_cases w fuel agent link0 t o t' :
  hasLinkBeenPosted w fuel agent link0 t = Some (o, t') ->
  (exists b, o = Ret b /\ hasLinkBeenPosted_try w fuel agent link0 t = Some (Ret b, t'))
  \/ (exists e t1,
        o = Ret false
        /\ hasLinkBeenPosted_try w fuel agent link0 t = Some (Throw e, t1)
        /\ t' = t1 ++ [search_warning e]).
Proof.
  unfold hasLinkBeenPosted, try_catch. intros H.
  destruct (hasLinkBeenPosted_try w fuel agent link0 t) as [[[b|e|c] t1]|] eqn:E.
  - injection H as <- <-. left. eauto.
  - cbv in H. injection H as <- <-. right. exists e, t1. auto.
  - exfalso. revert E. unfold hasLinkBeenPosted_try, bind.
    destruct (agent_handle agent) as [e|h]; cbn [lift throw ret]; [discriminate|].
    intros E. apply scan_loop_trace in E as (_ & _ & _ & []).
  - discriminate.
Qed.

Lemma hasLinkBeenPosted_try_scan w fuel agent handle link0 t :
  agent_handle agent = ok handle ->
  hasLinkBeenPosted_try w fuel agent link0 t
  = scan_loop w fuel handle link0 VUndefined true 0 t.
Proof.
  intros H. unfold hasLinkBeenPosted_try, bind. rewrite H. reflexivity.
Qed.

Lemma hasLinkBeenPosted_ret w fuel agent link0 t b t' :
  hasLinkBeenPosted_try w fuel agent link0 t = Some (Ret b, t') ->
  hasLinkBeenPosted w fuel agent link0 t = Some (Ret b, t').
Proof. intros H. unfold hasLinkBeenPosted, try_catch. now rewrite H. Qed.

Lemma hasLinkBeenPosted_caught w fuel agent link0 t e t' :
  hasLinkBeenPosted_try w fuel agent link0 t = Some (Throw e, t') ->
  hasLinkBeenPosted w fuel agent link0 t
  = Some (Ret false, t' ++ [search_warning e]).
Proof. intros H. unfold hasLinkBeenPosted, try_catch. now rewrite H. Qed.

(** A first page that is gone through without a match and that either
    fills the ceiling or has no cursor ends the scan: one request, [false]. *)
Lemma first_page_ends_scan w fuel agent handle link0 t feedItems cursor' pc' :
  agent_handle agent = ok handle ->
  answers_page w t handle VUndefined feedItems cursor' ->
  check_items link0 feedItems 0 = ok (NotFound pc') ->
  maxPostsToCheck <= Z.of_nat (List.length feedItems) \/ truthyV cursor' = false ->
  hasLinkBeenPosted w (S fuel) agent link0 t
  = Some (Ret false, t ++ [GetAuthorFeed handle 100 VUndefined]).
Proof.
  intros Hh Hp Hc Hstop.
  apply hasLinkBeenPosted_ret.
  rewrite (hasLinkBeenPosted_try_scan _ _ _ _ _ _ Hh).
  assert (H0 : 0 < maxPostsToCheck) by reflexivity.
  rewrite (scan_loop_step w handle link0 fuel VUndefined 0 t feedItems cursor' H0 Hp).
  unfold ok in Hc. rewrite Hc.
  apply scan_loop_stop.
  apply check_items_count in Hc.
  destruct Hstop as [Hn | Hn]; [right; lia | left; exact Hn].
Qed.

(** X15: what the loop does with its two bounds.  The ceiling and the
    cursor are tested at the head of the
    loop only.  There, an empty cursor or a count of at least 100 ends the
    scan without a request.  A page that is fetched is gone through to its
    end (every item of it is counted, also past the hundredth), and after
    it the loop goes on from the new cursor and count: it stops if the
    cursor is empty or the count has reached 100, and otherwise requests
    the next page.  So a first page with at least 100 items, none of them
    matching, makes the scan issue exactly one request and return [false],
    whatever lies on later pages.  And as long as the server never answers
    an empty page together with a cursor, the scan ends after at most 100
    requests. *)
Theorem scan_stops_between_pages w fuel handle link0 cursor pc t :
  (forall hasMore, hasMore = false \/ maxPostsToCheck <= pc ->
     scan_loop w fuel handle link0 cursor hasMore pc t = Some (Ret false, t))
  /\ (forall feedItems cursor' pc',
        pc < maxPostsToCheck ->
        answers_page w t handle cursor feedItems cursor' ->
        check_items link0 feedItems pc = ok (NotFound pc') ->
        let t1 := t ++ [GetAuthorFeed handle 100 cursor] in
        pc' = pc + Z.of_nat (List.length feedItems)
        /\ scan_loop w (S fuel) handle link0 cursor true pc t
           = scan_loop w fuel handle link0 cursor' (truthyV cursor') pc' t1
        /\ (truthyV cursor' = false \/ maxPostsToCheck <= pc' ->
            scan_loop w (S fuel) handle link0 cursor true pc t = Some (Ret false, t1))
        /\ (truthyV cursor' = true -> pc' < maxPostsToCheck ->
            forall o t',
              scan_loop w (S fuel) handle link0 cursor true pc t = Some (o, t') ->
              exists rest, t' = t1 ++ GetAuthorFeed handle 100 cursor' :: rest))
  /\ (forall agent feedItems cursor' pc',
        agent_handle agent = ok handle ->
        answers_page w t handle VUndefined feedItems cursor' ->
        check_items link0 feedItems 0 = ok (NotFound pc') ->
        maxPostsToCheck <= Z.of_nat (List.length feedItems) ->
        hasLinkBeenPosted w (S fuel) agent link0 t
        = Some (Ret false, t ++ [GetAuthorFeed handle 100 VUndefined]))
  /\ ((forall t0 cursor0 response pc0 cursor' pc',
         getAuthorFeed w t0 handle 100 cursor0 = ok response ->
         scan_page link0 response pc0 = ok (Continues cursor' pc') ->
         truthyV cursor' = true -> pc0 < pc') ->
      (Z.to_nat (maxPostsToCheck - pc) <= fuel)%nat ->
      forall hasMore,
      exists o fs,
        scan_loop w fuel handle link0 cursor hasMore pc t = Some (o, t ++ fs)
        /\ forallb is_fetch fs = true
        /\ (List.length fs <= Z.to_nat (maxPostsToCheck - pc))%nat).
Proof.
  split; [|split; [|split]].
  - intros hasMore H. now apply scan_loop_stop.
  - intros feedItems cursor' pc' Hpc Hp Hc t1.
    assert (Hstep := scan_loop_step w handle link0 fuel cursor pc t feedItems cursor' Hpc Hp).
    unfold ok in Hc. rewrite Hc in Hstep. fold t1 in Hstep.
    split; [now apply check_items_count in Hc|].
    split; [exact Hstep|]. split.
    + intros Hstop. rewrite Hstep. apply scan_loop_stop.
      destruct Hstop as [-> | H]; auto.
    + intros Hcur Hlt o t' H. rewrite Hstep, Hcur in H.
      now apply scan_loop_first_fetch in H.
  - intros agent feedItems cursor' pc' Hh Hp Hc Hn.
    eapply first_page_ends_scan; eauto.
  - intros Hprogress Hfuel hasMore.
    now apply scan_loop_terminates.
Qed.

(** ** Paged histories *)

Lemma skipn_cons_inv {A} (l : list A) : forall i x r d,
  skipn i l = x :: r ->
  nth i l d = x /\ skipn (S i) l = r /\ List.length l = (S i + List.length r)%nat.
Proof.
  induction l as [|a l IH]; intros i x r d H.
  - destruct i; discriminate.
  - destruct i as [|i]; simpl in H.
    + injection H as -> ->. repeat split. 
    + destruct (IH i x r d H) as (H1 & H2 & H3).
      repeat split; [exact H1 | exact H2 | simpl; lia].
Qed.

Lemma page_of_request_cursor i : page_of_cursor (request_cursor i) = i.
Proof. destruct i; [reflexivity|]. simpl. now rewrite repeat_length. Qed.

Lemma fetch_events_cons handle i n :
  fetch_events handle i (S n)
  = GetAuthorFeed handle 100 (request_cursor i) :: fetch_events handle (S i) n.
Proof. reflexivity. Qed.

Section PagedHistory.

Variable w : World.
Variable pages : list (list HItem).
Variable handle : JsVal.
Variable link0 : jsstring.

Hypothesis served : getAuthorFeed w = serve_pages pages.
Hypothesis link_given : truthy link0 = true.

(** A served history answers the request for page [i] with that page, and
    with a cursor exactly when a further page exists. *)
Lemma serve_pages_answers t i p rest :
  skipn i pages = p :: rest ->
  answers_page w t handle (request_cursor i) (map enc_item p)
    (match rest with [] => VUndefined | _ :: _ => request_cursor (S i) end).
Proof.
  intros Hsk.
  destruct (skipn_cons_inv pages i p rest [] Hsk) as (Hnth & _ & Hlen).
  unfold answers_page. rewrite served. unfold serve_pages.
  rewrite page_of_request_cursor. unfold page_response. rewrite Hnth.
  do 3 eexists. split; [reflexivity|].
  split; [reflexivity|]. split; [reflexivity|].
  split; [reflexivity|]. split; [reflexivity|].
  split; [reflexivity|].
  destruct rest as [|q rest].
  - replace (S i <? List.length pages)%nat with false; [reflexivity|].
    symmetry. apply Nat.ltb_ge. simpl in Hlen. lia.
  - replace (S i <? List.length pages)%nat with true; [reflexivity|].
    symmetry. apply Nat.ltb_lt. simpl in Hlen. lia.
Qed.

(** The scan of a served history, from page [i] on: it returns whether a
    post on the pages reached mentions the link, after one request per
    page fetched. *)
Lemma scan_paged : forall rest i pc fuel t,
  skipn i pages = rest -> rest <> [] ->
  (List.length rest <= fuel)%nat -> pc < maxPostsToCheck ->
  scan_loop w fuel handle link0 (request_cursor i) true pc t
  = Some (Ret (existsb (item_mentions link0) (List.concat (pages_reached pc rest))),
          t ++ fetch_events handle i
                 (List.length (pages_fetched link0 (pages_reached pc rest)))).
Proof.
  induction rest as [|p rest IH]; intros i pc fuel t Hsk Hne Hfuel Hpc;
    [contradiction|].
  destruct fuel as [|fuel]; [simpl in Hfuel; lia|].
  rewrite (scan_loop_step w handle link0 fuel (request_cursor i) pc t _ _ Hpc
             (serve_pages_answers t i p rest Hsk)).
  rewrite (check_items_enc link0 p pc link_given). unfold ok.
  cbn [pages_reached List.concat]. rewrite existsb_app.
  cbn [pages_fetched].
  destruct (existsb (item_mentions link0) p) eqn:Hp.
  - reflexivity.
  - cbn [orb List.length]. rewrite fetch_events_cons.
    set (ev := GetAuthorFeed handle 100 (request_cursor i)).
    destruct (pc + Z.of_nat (List.length p) <? maxPostsToCheck) eqn:Hlt.
    + destruct rest as [|q rest].
      * rewrite scan_loop_stop by (left; reflexivity). reflexivity.
      * destruct (skipn_cons_inv pages i p (q :: rest) [] Hsk) as (_ & Hsk' & _).
        change (truthyV (request_cursor (S i))) with true.
        rewrite (IH (S i) (pc + Z.of_nat (List.length p)) fuel (t ++ [ev]) Hsk').
        -- rewrite <- app_assoc. reflexivity.
        -- discriminate.
        -- simpl in Hfuel |- *. lia.
        -- now apply Z.ltb_lt.
    + rewrite scan_loop_stop by (right; now apply Z.ltb_ge). reflexivity.
Qed.

End PagedHistory.

(** X16: the result of the scan on a paged history.  On a history of
    well-formed posts served page by page,
    with the scan given at least one iteration per page, the scan returns
    [true] if and only if some post on the pages it reaches has the URL as
    a substring of its text or as the URL of one of its link facets.  The
    pages reached are the first one and every next one up to the first page
    at whose end 100 items have been counted; all items of a reached page
    are examined, also those past the hundredth of the history.  The scan
    returns at the first page that holds a match, so the requests issued
    are one per page up to that page, and exactly one when the match is on
    the first page. *)
Theorem scan_result_on_pages w p0 rest fuel agent handle link0 t :
  getAuthorFeed w = serve_pages (p0 :: rest) ->
  agent_handle agent = ok handle ->
  truthy link0 = true ->
  (List.length (p0 :: rest) <= fuel)%nat ->
  let reached := pages_reached 0 (p0 :: rest) in
  let found := existsb (item_mentions link0) (List.concat reached) in
  let n := List.length (pages_fetched link0 reached) in
  hasLinkBeenPosted w fuel agent link0 t
    = Some (Ret found, t ++ fetch_events handle 0 n)
  /\ (found = true <->
      exists i, In i (List.concat reached) /\ item_mentions link0 i = true)
  /\ (existsb (item_mentions link0) p0 = true -> found = true /\ n = 1%nat).
Proof.
  intros Hw Hh Hl Hfuel reached found n. split; [|split].
  - apply hasLinkBeenPosted_ret.
    rewrite (hasLinkBeenPosted_try_scan _ _ _ _ _ _ Hh).
    apply (scan_paged w (p0 :: rest) handle link0 Hw Hl (p0 :: rest) 0%nat 0 fuel t);
      [reflexivity | discriminate | exact Hfuel | reflexivity].
  - apply existsb_exists.
  - intros Hp. unfold found, n, reached. cbn [pages_reached List.concat pages_fetched].
    rewrite existsb_app, Hp. split; reflexivity.
Qed.

Lemma scan_result_on_pages_witness :
  hasLinkBeenPosted (sample_world history_with_link) 2 sample_agent sample_link []
  = Some (Ret true, [GetAuthorFeed sample_handle 100 VUndefined]).
Proof.
  assert (Hfuel : (List.length history_with_link <= 2)%nat) by (simpl; lia).
  exact (proj1 (scan_result_on_pages (sample_world history_with_link)
                  [other_post; post_with_link_facet sample_link; other_post]
                  [[other_post]]
                  2 sample_agent sample_handle sample_link []
                  eq_refl eq_refl eq_refl Hfuel)).
Defined.

(** C2, at a history of 101 posts served as a page of 99 (with a cursor)
    and a page of two, the last of which has the link in its text.  The
    documentation of [hasLinkBeenPosted] and the comment on
    [maxPostsToCheck] put the bound at 100 posts.  The count is 99 when the
    loop tests it, so the second page is requested, and nothing tests the
    count inside a page: the 101st post is inspected and found, where the
    first 100 posts do not mention the link. *)
Theorem scan_inspects_item_101 :
  let pages := history_99_then_2 in
  let page1 := map enc_item (repeat other_post 99) in
  nth_error (List.concat pages) 100 = Some (post_with_link_text sample_link)
  /\ existsb (item_mentions sample_link)
       (firstn (Z.to_nat maxPostsToCheck) (List.concat pages)) = false
  /\ check_items sample_link page1 0 = ok (NotFound 99)
  /\ hasLinkBeenPosted (sample_world pages) 2 sample_agent sample_link []
     = Some (Ret true, [GetAuthorFeed sample_handle 100 VUndefined;
                        GetAuthorFeed sample_handle 100 (cursor_token 1)])
  /\ ~ ceiling_hides_later_items pages sample_link.
Proof.
  cbv zeta.
  assert (Hrun : hasLinkBeenPosted (sample_world history_99_then_2) 2
                   sample_agent sample_link []
                 = Some (Ret true, [GetAuthorFeed sample_handle 100 VUndefined;
                                    GetAuthorFeed sample_handle 100 (cursor_token 1)]))
    by (vm_compute; reflexivity).
  assert (Hno : existsb (item_mentions sample_link)
                  (firstn 100 (List.concat history_99_then_2)) = false)
    by (vm_compute; reflexivity).
  split; [reflexivity|]. split; [exact Hno|].
  split; [vm_compute; reflexivity|]. split; [exact Hrun|].
  intros H.
  specialize (H (sample_world history_99_then_2) 2%nat sample_agent [] _ _ eq_refl Hrun Hno).
  discriminate H.
Qed.

(** C3, at a history of 101 posts served as a page of one (with a cursor)
    and a page of 100, the last of which carries the link in a facet.  The
    documentation of [hasLinkBeenPosted] has it search up to 100 previous
    posts; the second page is gone through to its end, and the scan
    answers [true] on the 101st post although none of the first 100
    mentions the link. *)
Theorem scan_answers_true_beyond_first_100 :
  let pages := history_1_then_100 in
  nth_error (List.concat pages) 100 = Some (post_with_link_facet sample_link)
  /\ existsb (item_mentions sample_link)
       (firstn (Z.to_nat maxPostsToCheck) (List.concat pages)) = false
  /\ hasLinkBeenPosted (sample_world pages) 2 sample_agent sample_link []
     = Some (Ret true, [GetAuthorFeed sample_handle 100 VUndefined;
                        GetAuthorFeed sample_handle 100 (cursor_token 1)])
  /\ ~ true_iff_in_first_100 pages sample_link.
Proof.
  cbv zeta.
  assert (Hrun : hasLinkBeenPosted (sample_world history_1_then_100) 2
                   sample_agent sample_link []
                 = Some (Ret true, [GetAuthorFeed sample_handle 100 VUndefined;
                                    GetAuthorFeed sample_handle 100 (cursor_token 1)]))
    by (vm_compute; reflexivity).
  assert (Hno : existsb (item_mentions sample_link)
                  (firstn 100 (List.concat history_1_then_100)) = false)
    by (vm_compute; reflexivity).
  split; [reflexivity|]. split; [exact Hno|]. split; [exact Hrun|].
  intros H.
  destruct (H (sample_world history_1_then_100) 2%nat sample_agent [] _ _ eq_refl Hrun)
    as [H1 _].
  specialize (H1 eq_refl). rewrite Hno in H1. discriminate H1.
Qed.

Lemma scan_stops_between_pages_witness :
  hasLinkBeenPosted (sample_world history_100_then_1) 1 sample_agent sample_link []
  = Some (Ret false, [GetAuthorFeed sample_handle 100 VUndefined]).
Proof.
  destruct (scan_stops_between_pages (sample_world history_100_then_1) 0
              sample_handle sample_link VUndefined 0 []) as (_ & _ & H & _).
  apply (H sample_agent (map enc_item (repeat other_post 100))
           (cursor_token 1) 100).
  - reflexivity.
  - do 3 eexists. repeat split; reflexivity.
  - vm_compute. reflexivity.
  - vm_compute. discriminate.
Defined.

(** ** Items without a readable record *)





(** ** Failures inside the scan *)

(** C4: [hasLinkBeenPosted] never throws and never exits: whenever it ends,
    it returns a boolean.  Whatever is thrown inside its [try] block (a
    failed request, a response that is not shaped like a page, a session
    without a handle) is caught, reported by a warning that carries the
    error's message, and answered by [false]; a request that fails throws
    out of the loop at whichever page it happens.  When every request
    fails, the scan returns [false] after at most one request. *)
Theorem scan_fails_open w fuel agent link0 t :
  (forall o t',
     hasLinkBeenPosted w fuel agent link0 t = Some (o, t') -> exists b, o = Ret b)
  /\ (forall e t1,
        hasLinkBeenPosted_try w fuel agent link0 t = Some (Throw e, t1) ->
        hasLinkBeenPosted w fuel agent link0 t
        = Some (Ret false, t1 ++ [search_warning e]))
  /\ (forall fuel' handle cursor pc t0 e,
        pc < maxPostsToCheck ->
        getAuthorFeed w t0 handle 100 cursor = raise e ->
        scan_loop w (S fuel') handle link0 cursor true pc t0
        = Some (Throw e, t0 ++ [GetAuthorFeed handle 100 cursor]))
  /\ (fuel <> O ->
      (forall t0 actor limit cursor, exists e, getAuthorFeed w t0 actor limit cursor = raise e) ->
      exists e t1,
        hasLinkBeenPosted w fuel agent link0 t
        = Some (Ret false, t1 ++ [search_warning e])
        /\ (t1 = t \/ exists handle, t1 = t ++ [GetAuthorFeed handle 100 VUndefined])).
Proof.
  split; [|split; [|split]].
  - intros o t' H. apply hasLinkBeenPosted_cases in H as [(b & -> & _) | (e & t1 & -> & _)];
      eauto.
  - intros e t1. apply hasLinkBeenPosted_caught.
  - intros fuel' handle cursor pc t0 e. apply scan_loop_fetch_fails.
  - intros Hfuel Hfail. destruct fuel as [|fuel]; [contradiction|].
    destruct (agent_handle agent) as [e|handle] eqn:Hh.
    + exists e, t. split; [|now left].
      apply hasLinkBeenPosted_caught.
      unfold hasLinkBeenPosted_try, bind. rewrite Hh. reflexivity.
    + destruct (Hfail t handle 100 VUndefined) as [e He].
      exists e, (t ++ [GetAuthorFeed handle 100 VUndefined]). split; [|right; eauto].
      apply hasLinkBeenPosted_caught.
      rewrite (hasLinkBeenPosted_try_scan _ _ _ _ _ _ Hh).
      apply scan_loop_fetch_fails; [reflexivity | exact He].
Qed.

Lemma scan_fails_open_witness :
  hasLinkBeenPosted offline_world 1 sample_agent sample_link []
  = Some (Ret false,
          [GetAuthorFeed sample_handle 100 VUndefined;
           search_warning (Err (js "fetch failed"))])
  /\ hasLinkBeenPosted garbled_world 1 sample_agent sample_link []
     = Some (Ret false,
             [GetAuthorFeed sample_handle 100 VUndefined;
              search_warning (TypeError "is not iterable")]).
Proof.
  split.
  - destruct (scan_fails_open offline_world 1 sample_agent sample_link [])
      as (_ & H & _).
    apply (H (Err (js "fetch failed")) [GetAuthorFeed sample_handle 100 VUndefined]).
    vm_compute. reflexivity.
  - destruct (scan_fails_open garbled_world 1 sample_agent sample_link [])
      as (_ & H & _).
    apply (H (TypeError "is not iterable") [GetAuthorFeed sample_handle 100 VUndefined]).
    vm_compute. reflexivity.
Defined.

(** ** The stages of a run *)

(** A [console.log(...)] followed by the rest of the block: the line is
    appended to the trace. *)
Tactic Notation "log_step" "in" hyp(H) :=
  unfold bind at 1 in H; unfold console_log at 1, emit in H.
Tactic Notation "log_step" :=
  unfold bind at 1; unfold console_log at 1, emit.


Lemma getLatestRSSPost_trace w p t o t' :
  getLatestRSSPost w p t = Some (o, t') ->
  t' = t ++ [ReadFile p] /\ match o with Exit _ => False | _ => True end.
Proof.
  unfold getLatestRSSPost, bind, request.
  destruct (readFileSync w p) as [e|content].
  - intros H. injection H as <- <-. auto.
  - destruct (parseString w content) as [e|feed]; cbn [lift throw ret].
    + intros H. injection H as <- <-. auto.
    + destruct (items feed) as [[|i l]|]; cbn [throw ret];
        intros H; injection H as <- <-; auto.
Qed.

Lemma getBlueskyAgent_trace w t o t' :
  getBlueskyAgent w t = Some (o, t') ->
  match o with Exit _ => False | _ => True end
  /\ ((t' = t /\ (o = Throw username_error \/ o = Throw password_error)
       /\ (env_truthy (env_BLUESKY_USERNAME w) = false
           \/ env_truthy (env_BLUESKY_PASSWORD w) = false))
      \/ (t' = t ++ [Login (opt_value (env_BLUESKY_USERNAME w))
                           (opt_value (env_BLUESKY_PASSWORD w))]
          /\ env_truthy (env_BLUESKY_USERNAME w) = true
          /\ env_truthy (env_BLUESKY_PASSWORD w) = true)).
Proof.
  unfold getBlueskyAgent.
  destruct (env_truthy (env_BLUESKY_USERNAME w)) eqn:Hu; cbn [negb].
  2:{ intros H. injection H as <- <-. split; [exact I|]. left. auto. }
  destruct (env_truthy (env_BLUESKY_PASSWORD w)) eqn:Hp; cbn [negb].
  2:{ intros H. injection H as <- <-. split; [exact I|]. left. auto. }
  unfold bind, request.
  destruct (agent_login w t _ _) as [e|s]; cbn [ret];
    intros H; injection H as <- <-; (split; [exact I|]); right; auto.
Qed.

Lemma hasLinkBeenPosted_trace w fuel agent link0 t o t' :
  hasLinkBeenPosted w fuel agent link0 t = Some (o, t') ->
  exists b fs tail,
    o = Ret b /\ t' = t ++ fs ++ tail
    /\ forallb is_fetch fs = true /\ network_calls tail = [].
Proof.
  intros H. apply hasLinkBeenPosted_cases in H as [(b & -> & H) | (e & t1 & -> & H & ->)].
  - unfold hasLinkBeenPosted_try, bind in H.
    destruct (agent_handle agent) as [e|h]; cbn [lift throw ret] in H; [discriminate|].
    apply scan_loop_trace in H as (fs & -> & Hfs & _).
    exists b, fs, []. rewrite app_nil_r. auto.
  - unfold hasLinkBeenPosted_try, bind in H.
    destruct (agent_handle agent) as [e0|h]; cbn [lift throw ret] in H.
    + injection H as <- <-. exists false, [], [search_warning e0]. auto.
    + apply scan_loop_trace in H as (fs & -> & Hfs & _).
      exists false, fs, [search_warning e]. rewrite <- app_assoc. auto.
Qed.

(** [sendBlueskyPost] ends before any request (no text, or a secret
    missing), after a login that failed or gave no [did], or after the
    login and the submission of the record. *)
Lemma sendBlueskyPost_trace w text0 url t o t' :
  sendBlueskyPost w text0 url t = Some (o, t') ->
  (t' = t /\ (exists e, o = Throw e)
   /\ (truthy text0 = false
       \/ env_truthy (env_BLUESKY_USERNAME w) = false
       \/ env_truthy (env_BLUESKY_PASSWORD w) = false))
  \/ (t' = t ++ [login_of w] /\ exists e, o = Throw e)
  \/ (exists repo,
        t' = t ++ [login_of w;
                   CreateRecord repo (js "app.bsky.feed.post")
                     (sendBlueskyPost_record text0 url (clock w (t ++ [login_of w])))]
        /\ match o with Exit _ => False | _ => True end).
Proof.
  intros H. unfold sendBlueskyPost in H.
  destruct (truthy text0); cbn [negb] in H.
  2:{ injection H as <- <-. left. eauto. }
  unfold bind at 1 in H.
  destruct (getBlueskyAgent w t) as [[[agent|e|c] t1]|] eqn:Hag; try discriminate.
  - apply getBlueskyAgent_trace in Hag as [_ [(-> & [?|?] & _) | (-> & _ & _)]];
      try discriminate.
    fold (login_of w) in H |- *.
    unfold bind at 1 in H. unfold current_time in H.
    unfold bind at 1 in H.
    destruct (get (session agent) "did") as [e|repo]; cbn [lift throw ret] in H.
    + injection H as <- <-. right; left. eauto.
    + unfold bind, request in H.
      destruct (createRecord w _ repo _ _) as [e|r]; cbn [ret] in H;
        injection H as <- <-; right; right;
        exists repo; rewrite <- app_assoc; (split; [reflexivity | exact I]).
  - injection H as <- <-.
    apply getBlueskyAgent_trace in Hag as [_ [(-> & _ & Hm) | (-> & _)]].
    + left. split; [reflexivity|]. split; [eauto|]. destruct Hm; auto.
    + right; left. eauto.
  - apply getBlueskyAgent_trace in Hag as [[] _].
Qed.

Lemma sendBlueskyPost_returns w text0 url t r t' :
  sendBlueskyPost w text0 url t = Some (Ret r, t') ->
  exists repo,
    t' = t ++ [login_of w;
               CreateRecord repo (js "app.bsky.feed.post")
                 (sendBlueskyPost_record text0 url (clock w (t ++ [login_of w])))].
Proof.
  intros H. apply sendBlueskyPost_trace in H
    as [(_ & [e He] & _) | [(_ & [e He]) | (repo & -> & _)]]; try discriminate.
  now exists repo.
Qed.

Lemma or_else_truthy s d : truthy d = true -> truthy (or_else s d) = true.
Proof. unfold or_else. destruct (truthy s) eqn:E; auto. Qed.

Lemma network_calls_app a b : network_calls (a ++ b) = network_calls a ++ network_calls b.
Proof. apply filter_app. Qed.

Lemma network_calls_fetches fs : forallb is_fetch fs = true -> network_calls fs = fs.
Proof.
  induction fs as [|e fs IH]; [reflexivity|].
  cbn [forallb]. intros H. apply andb_true_iff in H as [He Hfs].
  destruct e; try discriminate. simpl. now rewrite (IH Hfs).
Qed.

Lemma fetches_not_submissions fs :
  forallb is_fetch fs = true -> existsb is_submission fs = false.
Proof.
  induction fs as [|e fs IH]; [reflexivity|].
  cbn [forallb]. intros H. apply andb_true_iff in H as [He Hfs].
  destruct e; try discriminate. simpl. now apply IH.
Qed.

Lemma submissions_are_network t :
  existsb is_submission t = existsb is_submission (network_calls t).
Proof.
  induction t as [|e t IH]; [reflexivity|].
  destruct e; simpl; rewrite ?IH; reflexivity.
Qed.

(** The shapes a run of the [try] block can take, by its network calls. *)
Lemma postLatestToBluesky_try_shape w fuel rssPath o t :
  postLatestToBluesky_try w fuel rssPath [] = Some (o, t) ->
  match o with Exit _ => False | _ => True end
  /\ exists after,
       t = [reading_log; ReadFile rssPath] ++ after
       /\ ((network_calls after = [] /\ exists e, o = Throw e)
           \/ (network_calls after = [login_of w] /\ exists e, o = Throw e)
           \/ (exists fs, forallb is_fetch fs = true
                          /\ network_calls after = login_of w :: fs /\ o = Ret tt)
           \/ (exists fs, forallb is_fetch fs = true
                          /\ network_calls after = login_of w :: fs ++ [login_of w]
                          /\ exists e, o = Throw e)
           \/ (exists fs repo record,
                 forallb is_fetch fs = true
                 /\ network_calls after
                    = login_of w :: fs
                      ++ [login_of w; CreateRecord repo (js "app.bsky.feed.post") record])).
Proof.
  unfold postLatestToBluesky_try. intros H.
  log_step in H. cbn [app] in H.
  fold reading_log in H.
  unfold bind at 1 in H.
  destruct (getLatestRSSPost w rssPath [reading_log]) as [[[latest|e|c] t1]|] eqn:H1;
    try discriminate;
    apply getLatestRSSPost_trace in H1 as [-> Hex1]; try contradiction.
  2:{ injection H as <- <-. split; [exact I|]. exists []. split; [reflexivity|].
      left. split; [reflexivity | eauto]. }
  destruct (truthy (link latest)); cbn [negb] in H.
  2:{ injection H as <- <-. split; [exact I|]. exists []. split; [reflexivity|].
      left. split; [reflexivity | eauto]. }
  log_step in H.
  log_step in H.
  unfold bind at 1 in H.
  match type of H with context [getBlueskyAgent w ?t0] => set (ta := t0) in * end.
  destruct (getBlueskyAgent w ta) as [[[agent|e|c] t2]|] eqn:H2; try discriminate;
    apply getBlueskyAgent_trace in H2 as [Hex2 H2]; try contradiction.
  2:{ injection H as <- <-. split; [exact I|].
      destruct H2 as [(-> & _ & _) | (-> & _ & _)]; subst ta; cbn [app];
        eexists; (split; [reflexivity|]).
      - left. split; [reflexivity | eauto].
      - right; left. split; [reflexivity | eauto]. }
  destruct H2 as [(_ & [?|?] & _) | (-> & Hu & Hp)]; try discriminate.
  log_step in H.
  unfold bind at 1 in H.
  match type of H with context [hasLinkBeenPosted w fuel agent ?l ?t0] =>
    set (tb := t0) in *; set (lk := l) in * end.
  destruct (hasLinkBeenPosted w fuel agent lk tb) as [[o3 t3]|] eqn:H3; try discriminate.
  apply hasLinkBeenPosted_trace in H3 as (b & fs & tail & -> & -> & Hfs & Htail).
  assert (Hfs' := network_calls_fetches fs Hfs).
  unfold network_calls in Hfs', Htail |- *. subst tb ta lk.
  destruct b.
  - unfold bind, console_log, emit, ret in H. injection H as <- <-.
    split; [exact I|]. eexists. split; [reflexivity|].
    right; right; left. exists fs. split; [exact Hfs|]. split; [|reflexivity].
    simpl. rewrite !filter_app, Hfs', Htail. simpl. now rewrite !app_nil_r.
  - cbv zeta in H.
    log_step in H.
    unfold bind at 1 in H.
    match type of H with context [sendBlueskyPost w ?x ?y ?t0] =>
      destruct (sendBlueskyPost w x y t0) as [[[response|e|c] t4]|] eqn:H4 end;
      try discriminate.
    + (* the record was created *)
      apply sendBlueskyPost_returns in H4 as (repo & ->).
      assert (Hend : exists o' extra,
                 filter is_network extra = []
                 /\ match o' with Exit _ => False | _ => True end
                 /\ forall t0, Some (o', t0 ++ extra)
                               = (let* data := lift (get response "data") in
                                  let* uri0 := lift (get data "uri") in
                                  console_log [VStr (js "Post created successfully:"); uri0]) t0).
      { destruct (get response "data") as [e|data] eqn:Hd.
        - exists (Throw e), []. repeat split; auto.
          intros t0. unfold bind. rewrite app_nil_r. reflexivity.
        - destruct (get data "uri") as [e|u] eqn:Hu'.
          + exists (Throw e), []. repeat split; auto.
            intros t0. unfold bind. cbn [lift ret]. rewrite Hu'. cbn [lift throw].
            rewrite app_nil_r. reflexivity.
          + exists (Ret tt), [ConsoleLog [VStr (js "Post created successfully:"); u]].
            repeat split; auto.
            intros t0. unfold bind. cbn [lift ret]. rewrite Hu'. reflexivity. }
      destruct Hend as (o' & extra & Hextra & Ho' & Hrun).
      rewrite <- Hrun in H. injection H as <- <-.
      split; [exact Ho'|].
      eexists. split; [reflexivity|].
      right; right; right; right. exists fs, repo. eexists. split; [exact Hfs|].
      simpl. rewrite !filter_app, Hfs', Htail, Hextra. simpl.
      rewrite !app_nil_r. reflexivity.
    + injection H as <- <-. split; [exact I|].
      apply sendBlueskyPost_trace in H4
        as [(_ & _ & [Ht | [Hu' | Hp']]) | [(-> & _) | (repo & -> & _)]].
      * rewrite or_else_truthy in Ht by reflexivity. discriminate.
      * congruence.
      * congruence.
      * eexists. split; [reflexivity|].
        right; right; right; left. exists fs. split; [exact Hfs|]. split; [|eauto].
        simpl. rewrite !filter_app, Hfs', Htail. simpl.
        rewrite ?app_nil_r. reflexivity.
      * eexists. split; [reflexivity|].
        right; right; right; right. exists fs, repo. eexists. split; [exact Hfs|].
        simpl. rewrite !filter_app, Hfs', Htail. simpl.
        rewrite ?app_nil_r. reflexivity.
    + apply sendBlueskyPost_trace in H4
        as [(_ & [e He] & _) | [(_ & [e He]) | (repo & _ & [])]]; discriminate.
Qed.

(** ** The run *)

Lemma postLatestToBluesky_cases w fuel rssUrl o t :
  postLatestToBluesky w fuel (VStr rssUrl) [] = Some (o, t) ->
  (o = Ret tt /\ postLatestToBluesky_try w fuel (rssPath_of w rssUrl) [] = Some (Ret tt, t))
  \/ (exists e t0,
        o = Exit 1 /\ t = t0 ++ [error_log e]
        /\ postLatestToBluesky_try w fuel (rssPath_of w rssUrl) [] = Some (Throw e, t0)).
Proof.
  unfold postLatestToBluesky, try_catch. cbv zeta.
  destruct (postLatestToBluesky_try w fuel (rssPath_of w rssUrl) [])
    as [[[[]|e|c] t0]|] eqn:E; intros H.
  - injection H as <- <-. now left.
  - cbv in H. injection H as <- <-. right. exists e, t0. auto.
  - apply postLatestToBluesky_try_shape in E as [[] _].
  - discriminate.
Qed.

(** C5 fails on any run that submits.  Here: both secrets set, a feed with
    a linked entry, an empty history.  The network calls are a login, one
    history request, a second login (made by [sendBlueskyPost]) and the
    submission: two authentications, not one. *)
Lemma second_login_counterexample :
  ~ one_authentication_per_run (sample_world []) 1 (js "dist/rss.xml").
Proof.
  intros H.
  destruct (postLatestToBluesky (sample_world []) 1 (VStr (js "dist/rss.xml")) [])
    as [[o t]|] eqn:E; [|vm_compute in E; discriminate E].
  assert (Hnet : network_calls t
                 = [login_of (sample_world []);
                    GetAuthorFeed sample_handle 100 VUndefined;
                    login_of (sample_world []);
                    CreateRecord (VStr (js "did:plc:abc")) (js "app.bsky.feed.post")
                      (sendBlueskyPost_record (js "Hello") (Some sample_link)
                         (js "2026-01-01T00:00:00.000Z"))]).
  { vm_compute in E. injection E as _ <-. vm_compute. reflexivity. }
  assert (Hsub : existsb is_submission t = true).
  { rewrite submissions_are_network, Hnet. reflexivity. }
  destruct (H o t E Hsub) as (i & p & fetches & sub & Hf & _ & Hn).
  rewrite Hnet in Hn. injection Hn as _ _ Hn.
  apply (app_inj_tail [_; _] fetches _ sub) in Hn as [<- _].
  discriminate Hf.
Qed.

(** C5, amended: in every run that reaches the submission, the feed file is
    read first, before any network call, and the network calls are, in
    this order: a login, the history requests of the duplicate scan, a
    second login with the same credentials (made by [sendBlueskyPost]),
    and one record creation. *)
Theorem network_round_trips w fuel rssUrl o t :
  postLatestToBluesky w fuel (VStr rssUrl) [] = Some (o, t) ->
  existsb is_submission t = true ->
  exists after fetches repo record,
    t = [reading_log; ReadFile (rssPath_of w rssUrl)] ++ after
    /\ forallb is_fetch fetches = true
    /\ network_calls t
       = login_of w :: fetches
         ++ [login_of w; CreateRecord repo (js "app.bsky.feed.post") record].
Proof.
  intros H Hsub.
  assert (Hshape : exists o0 t0 extra,
             postLatestToBluesky_try w fuel (rssPath_of w rssUrl) [] = Some (o0, t0)
             /\ t = t0 ++ extra /\ network_calls extra = []).
  { apply postLatestToBluesky_cases in H as [[_ H] | (e & t0 & _ & -> & H)].
    - exists (Ret tt), t, []. rewrite app_nil_r. auto.
    - exists (Throw e), t0, [error_log e]. auto. }
  destruct Hshape as (o0 & t0 & extra & Htry & -> & Hextra).
  apply postLatestToBluesky_try_shape in Htry as [_ (after & -> & Hcases)].
  assert (Hnet : network_calls (([reading_log; ReadFile (rssPath_of w rssUrl)] ++ after) ++ extra)
                 = network_calls after).
  { rewrite !network_calls_app, Hextra, app_nil_r. reflexivity. }
  rewrite submissions_are_network, Hnet in Hsub.
  destruct Hcases as [[Hn _] | [[Hn _] | [(fs & Hfs & Hn & _) | [(fs & Hfs & Hn & _)
                     | (fs & repo & record & Hfs & Hn)]]]]; rewrite Hn in Hsub.
  - discriminate.
  - discriminate.
  - cbn in Hsub. rewrite (fetches_not_submissions fs Hfs) in Hsub. discriminate.
  - cbn in Hsub. rewrite existsb_app, (fetches_not_submissions fs Hfs) in Hsub.
    discriminate.
  - exists (after ++ extra), fs, repo, record.
    rewrite <- app_assoc. split; [reflexivity|]. split; [exact Hfs|].
    rewrite app_assoc, Hnet. exact Hn.
Qed.

Lemma network_round_trips_witness :
  exists o t fetches repo record,
    postLatestToBluesky (sample_world []) 1 (VStr (js "dist/rss.xml")) [] = Some (o, t)
    /\ forallb is_fetch fetches = true
    /\ network_calls t
       = login_of (sample_world []) :: fetches
         ++ [login_of (sample_world []);
             CreateRecord repo (js "app.bsky.feed.post") record].
Proof.
  destruct (postLatestToBluesky (sample_world []) 1 (VStr (js "dist/rss.xml")) [])
    as [[o t]|] eqn:E; [|vm_compute in E; discriminate E].
  assert (Hsub : existsb is_submission t = true)
    by (vm_compute in E; injection E as _ <-; reflexivity).
  destruct (network_round_trips (sample_world []) 1 (js "dist/rss.xml") o t E Hsub)
    as (after & fetches & repo & record & _ & Hf & Hn).
  exists o, t, fetches, repo, record. auto.
Defined.

Lemma tail_not_submission tail :
  network_calls tail = [] -> existsb is_submission tail = false.
Proof. intros H. now rewrite submissions_are_network, H. Qed.

(** C7: when the feed has been read, the session established, and the
    duplicate scan answers [true] for the latest entry's link, the run logs
    that the link was already posted and returns normally; its trace holds
    no record creation. *)
Theorem already_posted_is_skipped w fuel rssUrl latestPost agent t1 t2 t3 :
  getLatestRSSPost w (rssPath_of w rssUrl) [reading_log] = Some (Ret latestPost, t1) ->
  truthy (link latestPost) = true ->
  getBlueskyAgent w (t1 ++ latest_logs latestPost) = Some (Ret agent, t2) ->
  hasLinkBeenPosted w fuel agent (link latestPost) (t2 ++ [checking_log])
    = Some (Ret true, t3) ->
  postLatestToBluesky w fuel (VStr rssUrl) [] = Some (Ret tt, t3 ++ [skipping_log])
  /\ existsb is_submission (t3 ++ [skipping_log]) = false.
Proof.
  intros H1 Hl H2 H3. split.
  - unfold postLatestToBluesky, try_catch, postLatestToBluesky_try. cbv zeta.
    log_step. cbn [app].
    fold reading_log. unfold bind at 1. rewrite H1, Hl. cbn [negb].
    log_step.
    log_step.
    unfold bind at 1. rewrite <- app_assoc.
    change ([ConsoleLog [VStr (js "Latest post: " ++ title latestPost)]]
            ++ [ConsoleLog [VStr (js "Link: " ++ link latestPost)]])
      with (latest_logs latestPost).
    rewrite H2.
    log_step.
    unfold bind at 1. fold checking_log. rewrite H3.
    reflexivity.
  - apply getLatestRSSPost_trace in H1 as [-> _].
    apply getBlueskyAgent_trace in H2 as [_ [(_ & [?|?] & _) | (-> & _)]];
      try discriminate.
    apply hasLinkBeenPosted_trace in H3 as (b & fs & tail & _ & -> & Hfs & Htail).
    rewrite !existsb_app, (fetches_not_submissions fs Hfs), (tail_not_submission tail Htail).
    reflexivity.
Qed.

Lemma already_posted_is_skipped_witness :
  exists t,
    postLatestToBluesky (sample_world history_with_link) 1 (VStr (js "dist/rss.xml")) []
    = Some (Ret tt, t)
    /\ existsb is_submission t = false.
Proof.
  set (w := sample_world history_with_link).
  set (latest := {| title := js "Hello"; link := sample_link |}).
  set (t1 := [reading_log; ReadFile (js "/site/src/dist/rss.xml")]).
  set (t2 := t1 ++ latest_logs latest ++ [login_of w]).
  set (t3 := t2 ++ [checking_log; GetAuthorFeed sample_handle 100 VUndefined]).
  exists (t3 ++ [skipping_log]).
  apply (already_posted_is_skipped w 1 (js "dist/rss.xml") latest sample_agent t1 t2 t3).
  - vm_compute. reflexivity.
  - reflexivity.
  - vm_compute. reflexivity.
  - vm_compute. reflexivity.
Defined.

(** ** Secrets *)

Lemma getLatestRSSPost_total w p t :
  exists o, getLatestRSSPost w p t = Some (o, t ++ [ReadFile p]).
Proof.
  destruct (getLatestRSSPost w p t) as [[o t']|] eqn:E.
  - apply getLatestRSSPost_trace in E as [-> _]. eauto.
  - exfalso. revert E. unfold getLatestRSSPost, bind, request.
    destruct (readFileSync w p) as [e|content]; [discriminate|].
    destruct (parseString w content) as [e|feed]; cbn [lift throw ret]; [discriminate|].
    destruct (items feed) as [[|i l]|]; discriminate.
Qed.

(** C8 fails when the feed fails first: the password is not set and the
    feed has no items.  The run ends by [process.exit(1)] without a network
    call, but the error it reports is "No items found in RSS feed", raised
    by [getLatestRSSPost] before the secrets are looked at. *)
Lemma feed_error_comes_first_counterexample :
  ~ config_error_on_missing_secret world_without_password_or_items.
Proof.
  intros H.
  destruct (H (or_intror eq_refl) 0%nat (js "dist/rss.xml")) as (e & t & Hr & He & _).
  assert (Hrun : postLatestToBluesky world_without_password_or_items 0
                   (VStr (js "dist/rss.xml")) []
                 = Some (Exit 1,
                         [reading_log; ReadFile (js "/site/src/dist/rss.xml")]
                         ++ [error_log no_items_error]))
    by (vm_compute; reflexivity).
  rewrite Hrun in Hr. injection Hr as Hr.
  apply (app_inj_tail [_; _] t _ _) in Hr as [_ Hr].
  destruct e as [m]. unfold error_log, message in Hr. injection Hr as <-.
  destruct He as [He | He]; vm_compute in He; discriminate He.
Qed.

(** C8, amended: when one of the two secrets is absent, [getBlueskyAgent]
    throws the error that names the missing variable and leaves the trace
    as it was: no request is made.  The user name is looked at first: the
    error names [BLUESKY_USERNAME] when that is absent (or empty), and
    [BLUESKY_PASSWORD] when the user name is set and the password is
    absent.  A run of [postLatestToBluesky] on a feed path in such a world
    ends by [process.exit(1)] after logging an error, with no network call
    in its trace; when the feed yields a linked entry (so that the run gets
    as far as establishing the session) the error logged is that
    configuration error. *)
Theorem missing_secret_stops_before_network w :
  env_BLUESKY_USERNAME w = None \/ env_BLUESKY_PASSWORD w = None ->
  (forall t,
     (env_truthy (env_BLUESKY_USERNAME w) = false ->
      getBlueskyAgent w t = Some (Throw username_error, t))
     /\ (env_truthy (env_BLUESKY_USERNAME w) = true ->
         getBlueskyAgent w t = Some (Throw password_error, t)))
  /\ (forall fuel rssUrl,
        exists e t,
          postLatestToBluesky w fuel (VStr rssUrl) [] = Some (Exit 1, t ++ [error_log e])
          /\ network_calls (t ++ [error_log e]) = []
          /\ (forall latestPost t1,
                getLatestRSSPost w (rssPath_of w rssUrl) [reading_log]
                  = Some (Ret latestPost, t1) ->
                truthy (link latestPost) = true ->
                (env_truthy (env_BLUESKY_USERNAME w) = false -> e = username_error)
                /\ (env_truthy (env_BLUESKY_USERNAME w) = true -> e = password_error))).
Proof.
  intros Hmiss.
  assert (Hagent : forall t,
            getBlueskyAgent w t
            = Some (Throw (if env_truthy (env_BLUESKY_USERNAME w)
                           then password_error else username_error), t)).
  { intros t. unfold getBlueskyAgent.
    destruct (env_truthy (env_BLUESKY_USERNAME w)) eqn:Hu; cbn [negb]; [|reflexivity].
    destruct (env_truthy (env_BLUESKY_PASSWORD w)) eqn:Hp; cbn [negb]; [|reflexivity].
    destruct Hmiss as [H | H]; rewrite H in *; discriminate. }
  split.
  - intros t. rewrite Hagent.
    split; intros Hu; rewrite Hu; reflexivity.
  - intros fuel rssUrl.
    unfold postLatestToBluesky, try_catch, postLatestToBluesky_try. cbv zeta.
    log_step. cbn [app]. fold reading_log.
    unfold bind at 1.
    destruct (getLatestRSSPost_total w (rssPath_of w rssUrl) [reading_log]) as [o1 H1].
    rewrite H1. cbn [app].
    destruct o1 as [latestPost|e|c].
    + destruct (truthy (link latestPost)) eqn:Hl; cbn [negb].
      * log_step.
        log_step.
        unfold bind at 1. rewrite Hagent.
        eexists. eexists. split; [reflexivity|]. split; [reflexivity|].
        intros _ _ _ _. split; intros Hu; rewrite Hu; reflexivity.
      * eexists. eexists. split; [reflexivity|]. split; [reflexivity|].
        intros lp t1 E Hl'. injection E as <- _. congruence.
    + eexists. eexists. split; [reflexivity|]. split; [reflexivity|].
      intros lp t1 E. discriminate E.
    + apply getLatestRSSPost_trace in H1 as [_ []].
Qed.

Lemma missing_secret_witness :
  getBlueskyAgent (with_secrets (sample_world []) None None) []
  = Some (Throw username_error, [])
  /\ getBlueskyAgent world_without_password [] = Some (Throw password_error, [])
  /\ exists t,
       postLatestToBluesky world_without_password 0 (VStr (js "dist/rss.xml")) []
       = Some (Exit 1, t ++ [error_log password_error])
       /\ network_calls (t ++ [error_log password_error]) = [].
Proof.
  split;
    [exact (proj1 (proj1 (missing_secret_stops_before_network
                            (with_secrets (sample_world []) None None)
                            (or_introl eq_refl)) []) eq_refl)|].
  assert (Hmiss : env_BLUESKY_USERNAME world_without_password = None
                  \/ env_BLUESKY_PASSWORD world_without_password = None)
    by (right; reflexivity).
  destruct (missing_secret_stops_before_network world_without_password Hmiss)
    as [Hagent Hrun].
  split.
  - exact (proj2 (Hagent []) eq_refl).
  - destruct (Hrun 0%nat (js "dist/rss.xml")) as (e & t & Hr & Hn & He).
    destruct (He {| title := js "Hello"; link := sample_link |}
                 [reading_log; ReadFile (js "/site/src/dist/rss.xml")]
                 eq_refl eq_refl) as [_ E].
    specialize (E eq_refl). subst e. exists t. auto.
Defined.

(** ** The feed *)

Lemma or_else_empty s : or_else s empty = s.
Proof. now destruct s. Qed.

(** C9: once the file is read, a feed whose parse yields at least one item
    gives the first item, and nothing of the others: its title and its
    link, an absent field reading as the empty string.  A feed with no
    items (an empty list, or no list) makes [getLatestRSSPost] throw
    "No items found in RSS feed", and a parse failure is thrown on.  A
    first item without a link is returned like any other, with the empty
    link. *)
Theorem latest_is_first_item w rssUrl content t :
  readFileSync w rssUrl = ok content ->
  (forall feed first rest,
     parseString w content = ok feed ->
     items feed = Some (first :: rest) ->
     getLatestRSSPost w rssUrl t
     = Some (Ret {| title := opt_value (item_title first);
                    link := opt_value (item_link first) |},
             t ++ [ReadFile rssUrl]))
  /\ (forall feed,
        parseString w content = ok feed ->
        items feed = Some [] \/ items feed = None ->
        getLatestRSSPost w rssUrl t
        = Some (Throw no_items_error, t ++ [ReadFile rssUrl]))
  /\ (forall e,
        parseString w content = raise e ->
        getLatestRSSPost w rssUrl t = Some (Throw e, t ++ [ReadFile rssUrl]))
  /\ (forall feed first rest,
        parseString w content = ok feed ->
        items feed = Some (first :: rest) ->
        item_link first = None \/ item_link first = Some [] ->
        getLatestRSSPost w rssUrl t
        = Some (Ret {| title := opt_value (item_title first); link := [] |},
                t ++ [ReadFile rssUrl])).
Proof.
  intros Hread.
  assert (Hfirst : forall feed first rest,
             parseString w content = ok feed ->
             items feed = Some (first :: rest) ->
             getLatestRSSPost w rssUrl t
             = Some (Ret {| title := opt_value (item_title first);
                            link := opt_value (item_link first) |},
                     t ++ [ReadFile rssUrl])).
  { intros feed first rest Hparse Hitems.
    unfold getLatestRSSPost, bind, request. unfold ok in Hread, Hparse.
    rewrite Hread, Hparse. cbn [lift ret]. rewrite Hitems.
    now rewrite !or_else_empty. }
  split; [exact Hfirst|]. split; [|split].
  - intros feed Hparse Hitems.
    unfold getLatestRSSPost, bind, request. unfold ok in Hread, Hparse.
    rewrite Hread, Hparse. cbn [lift ret].
    destruct Hitems as [-> | ->]; reflexivity.
  - intros e Hparse.
    unfold getLatestRSSPost, bind, request. unfold ok in Hread. unfold raise in Hparse.
    rewrite Hread, Hparse. reflexivity.
  - intros feed first rest Hparse Hitems Hlink.
    rewrite (Hfirst feed first rest Hparse Hitems).
    destruct Hlink as [-> | ->]; reflexivity.
Qed.

Lemma latest_is_first_item_witness :
  getLatestRSSPost (sample_world []) (js "/site/dist/rss.xml") []
  = Some (Ret {| title := js "Hello"; link := sample_link |},
          [ReadFile (js "/site/dist/rss.xml")]).
Proof.
  assert (Hread : readFileSync (sample_world []) (js "/site/dist/rss.xml")
                  = ok (js "<rss/>")) by reflexivity.
  destruct (latest_is_first_item (sample_world []) (js "/site/dist/rss.xml")
              (js "<rss/>") [] Hread) as [H _].
  exact (H sample_feed
           {| item_title := Some (js "Hello"); item_link := Some sample_link |}
           [{| item_title := Some (js "Older"); item_link := Some (js "https://x.test/0") |}]
           eq_refl eq_refl).
Defined.

(* ===================================================================== *)
(** * Further properties of [src/bluesky.js]                               *)
(* ===================================================================== *)

(** ** The record [sendBlueskyPost] builds *)

Lemma url_given_inv url u : url_given url = Some u -> url = Some u /\ truthy u = true.
Proof.
  destruct url as [v|]; simpl; [|discriminate].
  destruct (truthy v) eqn:E; [|discriminate].
  intros H. injection H as <-. auto.
Qed.

Lemma occurs_or_not url text0 : occurs_in url text0 \/ ~ occurs_in url text0.
Proof.
  destruct (Z.eq_dec (indexOf text0 url) (-1)) as [H | H].
  - right. now apply indexOf_minus_one.
  - left. destruct (indexOf_from_spec text0 url 0) as [[Hi _] | (a & b & Hs & Hb & _)].
    + contradiction.
    + apply startsWith_spec in Hb as [r ->]. now exists a, r.
Qed.

(** X1: the record has a facet exactly when a non-empty URL is given.
    Without one the text is submitted as it is.  With one, the submitted
    text begins with the given text and contains the URL, and the single
    facet, with a single link feature whose [uri] is the URL, has a range
    that (counted in code units, as the code counts) starts where that
    occurrence of the URL starts and is as long as the URL: the range
    never leaves the text and always covers the URL. *)
Theorem facet_covers_url (text0 : jsstring) (url : option jsstring) (now : jsstring) :
  let r := sendBlueskyPost_record text0 url now in
  record_type r = js "app.bsky.feed.post"
  /\ createdAt r = now
  /\ (url_given url = None -> text r = text0 /\ facets r = None)
  /\ (forall u, url_given url = Some u ->
      exists a b,
        text r = a ++ u ++ b
        /\ (exists c, text r = text0 ++ c)
        /\ facets r
           = Some [ {| index := {| byteStart := JsString.length a;
                                   byteEnd := JsString.length a + JsString.length u |};
                       features := [ {| feature_type := link_feature_type;
                                        uri := u |} ] |} ]
        /\ JsString.length a + JsString.length u <= JsString.length (text r)).
Proof.
  cbv zeta. unfold sendBlueskyPost_record.
  destruct (url_given url) as [u|] eqn:Hg.
  2:{ repeat split; try reflexivity. intros u Hu. discriminate. }
  destruct (url_given_inv _ _ Hg) as [-> Hu].
  cbv zeta.
  destruct (occurs_or_not u text0) as [Hocc | Hno].
  - destruct (indexOf_first _ _ Hocc) as (a & b & Hs & Hi & _).
    rewrite Hi.
    assert (Hne : (JsString.length a =? -1) = false).
    { apply Z.eqb_neq. unfold JsString.length. lia. }
    rewrite Hne. cbn [negb text record_type createdAt facets].
    repeat split; try discriminate.
    intros u' E. injection E as <-.
    exists a, b. split; [exact Hs|]. split; [exists []; now rewrite app_nil_r|].
    split; [reflexivity|].
    rewrite Hs, !length_app. unfold JsString.length. lia.
  - apply indexOf_minus_one in Hno. rewrite Hno, Z.eqb_refl.
    set (sep := if endsWith text0 (js " ") then empty else js " ").
    cbn [negb text record_type createdAt facets].
    repeat split; try discriminate.
    intros u' E. injection E as <-.
    exists (text0 ++ sep), []. rewrite app_nil_r, <- app_assoc.
    split; [reflexivity|]. split; [now exists (sep ++ u)|].
    split.
    + rewrite (app_assoc text0 sep u), (length_app (text0 ++ sep) u).
      do 4 f_equal. f_equal. lia.
    + rewrite (app_assoc text0 sep u), (length_app (text0 ++ sep) u). lia.
Qed.

Lemma facet_covers_url_witness :
  exists a b,
    text (sendBlueskyPost_record (js "Caf" ++ [0xE9%N]) (Some sample_link) (js "now"))
    = a ++ sample_link ++ b
    /\ facet_range (sendBlueskyPost_record (js "Caf" ++ [0xE9%N]) (Some sample_link) (js "now"))
       = Some (JsString.length a, JsString.length a + JsString.length sample_link).
Proof.
  destruct (facet_covers_url (js "Caf" ++ [0xE9%N]) (Some sample_link) (js "now"))
    as (_ & _ & _ & H).
  destruct (H sample_link eq_refl) as (a & b & Ht & _ & Hf & _).
  exists a, b. split; [exact Ht|].
  unfold facet_range. rewrite Hf. reflexivity.
Defined.

(** X2: once the URL is in the text it is not appended again: building the
    record anew from the text of a record, with the same URL, leaves the
    text as it is. *)
Theorem url_appended_once (text0 url now now' : jsstring) :
  truthy url = true ->
  let r := sendBlueskyPost_record text0 (Some url) now in
  occurs_in url (text r)
  /\ text (sendBlueskyPost_record (text r) (Some url) now') = text r.
Proof.
  intros Hu. cbv zeta.
  assert (Hocc : occurs_in url (text (sendBlueskyPost_record text0 (Some url) now))).
  { destruct (occurs_or_not url text0) as [Hocc | Hno].
    - destruct (facet_existing_code_units text0 url now Hu Hocc) as (a & b & _ & _ & -> & _).
      exact Hocc.
    - unfold sendBlueskyPost_record. rewrite (url_given_truthy _ Hu). cbv zeta.
      apply indexOf_minus_one in Hno. rewrite Hno, Z.eqb_refl. cbn [negb text].
      eexists _, []. rewrite app_nil_r, app_assoc. reflexivity. }
  split; [exact Hocc|].
  destruct (facet_existing_code_units _ url now' Hu Hocc) as (a & b & _ & _ & Ht & _).
  exact Ht.
Qed.

Lemma url_appended_once_witness :
  text (sendBlueskyPost_record (js "Check this out https://x.test/a")
          (Some sample_link) (js "later"))
  = js "Check this out https://x.test/a".
Proof.
  assert (Hu : truthy sample_link = true) by reflexivity.
  exact (proj2 (url_appended_once (js "Check this out") sample_link (js "now")
                  (js "later") Hu)).
Defined.

(** ** The order of a page *)

Lemma check_items_app link0 pre rest : forall pc,
  check_items link0 (pre ++ rest) pc
  = match check_items link0 pre pc with
    | inr (NotFound pc') => check_items link0 rest pc'
    | r => r
    end.
Proof.
  induction pre as [|x pre IH]; intros pc; [reflexivity|].
  cbn [app check_items].
  destruct (check_item link0 x) as [e|[|]]; cbn [res_bind]; try reflexivity.
  apply IH.
Qed.

(** X3: a page is gone through in order, and the first item that matches
    or throws decides.  A match is returned although a later item of the
    page is malformed; an item that throws ends the scan with a warning and
    [false] although a later item of the page has the link. *)
Theorem first_event_on_page_decides
    w fuel agent handle link0 t pre x post cursor' pc' :
  agent_handle agent = ok handle ->
  answers_page w t handle VUndefined (pre ++ x :: post) cursor' ->
  check_items link0 pre 0 = ok (NotFound pc') ->
  (check_item link0 x = ok true ->
   hasLinkBeenPosted w (S fuel) agent link0 t
   = Some (Ret true, t ++ [GetAuthorFeed handle 100 VUndefined]))
  /\ (forall e,
        check_item link0 x = raise e ->
        hasLinkBeenPosted w (S fuel) agent link0 t
        = Some (Ret false,
                t ++ [GetAuthorFeed handle 100 VUndefined; search_warning e])).
Proof.
  intros Hh Hp Hpre.
  assert (H0 : 0 < maxPostsToCheck) by reflexivity.
  assert (Hstep := scan_loop_step w handle link0 fuel VUndefined 0 t _ _ H0 Hp).
  rewrite check_items_app in Hstep. unfold ok in Hpre. rewrite Hpre in Hstep.
  cbn [check_items] in Hstep.
  split.
  - intros Hx. unfold ok in Hx. rewrite Hx in Hstep. cbn [res_bind] in Hstep.
    apply hasLinkBeenPosted_ret.
    now rewrite (hasLinkBeenPosted_try_scan _ _ _ _ _ _ Hh).
  - intros e Hx. unfold raise in Hx. rewrite Hx in Hstep. cbn [res_bind] in Hstep.
    replace (t ++ [GetAuthorFeed handle 100 VUndefined; search_warning e])
      with ((t ++ [GetAuthorFeed handle 100 VUndefined]) ++ [search_warning e])
      by (now rewrite <- app_assoc).
    apply hasLinkBeenPosted_caught.
    now rewrite (hasLinkBeenPosted_try_scan _ _ _ _ _ _ Hh).
Qed.

Lemma first_event_on_page_decides_witness :
  hasLinkBeenPosted (world_answering page_with_null_item) 1 sample_agent sample_link []
  = Some (Ret false,
          [GetAuthorFeed sample_handle 100 VUndefined;
           search_warning (TypeError "Cannot read properties of undefined")])
  /\ hasLinkBeenPosted (world_answering page_with_late_null_item) 1
       sample_agent sample_link []
     = Some (Ret true, [GetAuthorFeed sample_handle 100 VUndefined]).
Proof.
  split.
  - destruct (first_event_on_page_decides (world_answering page_with_null_item) 0
                sample_agent sample_handle sample_link []
                [enc_item other_post] VNull
                [enc_item (post_with_link_text sample_link)] VUndefined 1) as [_ H].
    + reflexivity.
    + do 3 eexists. repeat split; reflexivity.
    + reflexivity.
    + apply (H (TypeError "Cannot read properties of undefined")). reflexivity.
  - destruct (first_event_on_page_decides (world_answering page_with_late_null_item) 0
                sample_agent sample_handle sample_link []
                [enc_item other_post] (enc_item (post_with_link_text sample_link))
                [VNull] VUndefined 1) as [H _].
    + reflexivity.
    + do 3 eexists. repeat split; reflexivity.
    + reflexivity.
    + apply H. vm_compute. reflexivity.
Defined.

(** ** A response without a page *)

(** X4: a response whose [data] or [data.feed] is missing (or falsy) ends
    the scan at once, at whichever page it comes: [false], no warning, no
    further request.  (A response that is itself [undefined] throws instead
    and is reported by the warning.) *)
Theorem response_without_feed_ends_scan_quietly
    w fuel handle link0 cursor pc t response data :
  pc < maxPostsToCheck ->
  getAuthorFeed w t handle 100 cursor = ok response ->
  get response "data" = ok data ->
  truthyV data = false
  \/ (exists feed, get data "feed" = ok feed /\ truthyV feed = false) ->
  scan_loop w (S fuel) handle link0 cursor true pc t
  = Some (Ret false, t ++ [GetAuthorFeed handle 100 cursor])
  /\ (forall agent,
        agent_handle agent = ok handle -> cursor = VUndefined -> pc = 0 ->
        hasLinkBeenPosted w (S fuel) agent link0 t
        = Some (Ret false, t ++ [GetAuthorFeed handle 100 VUndefined])).
Proof.
  intros Hpc Hr Hd Hmissing.
  assert (Hloop : scan_loop w (S fuel) handle link0 cursor true pc t
                  = Some (Ret false, t ++ [GetAuthorFeed handle 100 cursor])).
  { rewrite (scan_loop_unfold _ _ _ _ _ _ _ Hpc). unfold ok in Hr. rewrite Hr.
    unfold scan_page. rewrite Hd. cbn [res_bind ok].
    destruct Hmissing as [Hf | (feed & Hf & Hft)].
    - now rewrite Hf.
    - destruct (truthyV data); [|reflexivity]. cbn [negb].
      rewrite Hf. cbn [res_bind ok]. now rewrite Hft. }
  split; [exact Hloop|].
  intros agent Hh -> ->. apply hasLinkBeenPosted_ret.
  now rewrite (hasLinkBeenPosted_try_scan _ _ _ _ _ _ Hh).
Qed.

Lemma response_without_feed_witness :
  hasLinkBeenPosted world_without_data 1 sample_agent sample_link []
  = Some (Ret false, [GetAuthorFeed sample_handle 100 VUndefined]).
Proof.
  destruct (response_without_feed_ends_scan_quietly world_without_data 0
              sample_handle sample_link VUndefined 0 [] (VObj []) VUndefined)
    as [_ H].
  - reflexivity.
  - reflexivity.
  - reflexivity.
  - left. reflexivity.
  - apply (H sample_agent); reflexivity.
Defined.

(** ** Following the cursor *)

Lemma scan_page_continues link0 response pc cursor' pc' :
  scan_page link0 response pc = ok (Continues cursor' pc') ->
  exists data, get response "data" = ok data /\ get data "cursor" = ok cursor'.
Proof.
  unfold scan_page.
  destruct (get response "data") as [e|data]; cbn [res_bind]; [discriminate|].
  destruct (truthyV data); cbn [negb]; [|discriminate].
  destruct (get data "feed") as [e|feed]; cbn [res_bind]; [discriminate|].
  destruct (truthyV feed); cbn [negb]; [|discriminate].
  destruct (iterate feed) as [e|feedItems]; cbn [res_bind]; [discriminate|].
  destruct (check_items link0 feedItems pc) as [e|[|pc0]]; cbn [res_bind];
    try discriminate.
  destruct (get data "cursor") as [e|c] eqn:Hc; cbn [res_bind]; [discriminate|].
  intros H. injection H as <- _. now exists data.
Qed.

Lemma scan_loop_follows_cursors w handle link0 fuel :
  forall cursor hasMore pc t o t',
    scan_loop w fuel handle link0 cursor hasMore pc t = Some (o, t') ->
    exists fs, t' = t ++ fs /\ follows_cursors w handle t cursor fs.
Proof.
  induction fuel as [|fuel IH]; intros cursor hasMore pc t o t' H.
  - simpl in H. destruct (hasMore && (pc <? maxPostsToCheck)); [discriminate|].
    injection H as _ <-. exists []. now rewrite app_nil_r.
  - destruct hasMore.
    2:{ rewrite scan_loop_stop in H by now left.
        injection H as _ <-. exists []. now rewrite app_nil_r. }
    destruct (Z.lt_ge_cases pc maxPostsToCheck) as [Hpc | Hpc].
    2:{ rewrite scan_loop_stop in H by now right.
        injection H as _ <-. exists []. now rewrite app_nil_r. }
    rewrite (scan_loop_unfold _ _ _ _ _ _ _ Hpc) in H.
    set (ev := GetAuthorFeed handle 100 cursor) in *.
    assert (Hone : forall o0, Some (o0, t ++ [ev]) = Some (o, t') ->
                   exists fs, t' = t ++ fs /\ follows_cursors w handle t cursor fs).
    { intros o0 E. injection E as _ <-. exists [ev]. split; [reflexivity|].
      split; [reflexivity | now left]. }
    destruct (getAuthorFeed w t handle 100 cursor) as [e|response] eqn:Hr; [eauto|].
    destruct (scan_page link0 response pc) as [e|[b|cursor' pc']] eqn:Hp; [eauto|eauto|].
    destruct (truthyV cursor') eqn:Hcur.
    + apply scan_page_continues in Hp as (data & Hd & Hc).
      apply IH in H as (fs & -> & Hfs).
      exists (ev :: fs). rewrite <- app_assoc. split; [reflexivity|].
      split; [reflexivity|]. right. exists response, data, cursor'. auto.
    + rewrite scan_loop_stop in H by now left. eauto.
Qed.

(** X5: the requests of a scan are a chain.  All of them ask for the same
    actor, [session.handle || session.did], with limit 100; the first
    carries no cursor, and each next one carries the (non-empty) cursor
    that the answer to the request before it returned.  Nothing but these
    requests, and at most one closing warning, is added to the trace. *)
Theorem scan_follows_cursors w fuel agent link0 t o t' :
  hasLinkBeenPosted w fuel agent link0 t = Some (o, t') ->
  (exists e, agent_handle agent = raise e /\ t' = t ++ [search_warning e])
  \/ (exists handle fs tail,
        agent_handle agent = ok handle
        /\ t' = t ++ fs ++ tail
        /\ follows_cursors w handle t VUndefined fs
        /\ (tail = [] \/ exists e, tail = [search_warning e])).
Proof.
  intros H.
  apply hasLinkBeenPosted_cases in H as [(b & -> & H) | (e & t1 & -> & H & ->)];
    unfold hasLinkBeenPosted_try, bind in H;
    destruct (agent_handle agent) as [e0|handle] eqn:Hh; cbn [lift throw ret] in H.
  - discriminate.
  - right. apply scan_loop_follows_cursors in H as (fs & -> & Hfs).
    exists handle, fs, []. rewrite app_nil_r. auto.
  - left. injection H as <- <-. now exists e0.
  - right. apply scan_loop_follows_cursors in H as (fs & -> & Hfs).
    exists handle, fs, [search_warning e]. rewrite <- app_assoc.
    repeat split; eauto.
Qed.

Lemma scan_follows_cursors_witness :
  follows_cursors (sample_world history_99_then_2) sample_handle [] VUndefined
    [GetAuthorFeed sample_handle 100 VUndefined;
     GetAuthorFeed sample_handle 100 (cursor_token 1)].
Proof.
  assert (Hrun : hasLinkBeenPosted (sample_world history_99_then_2) 2
                   sample_agent sample_link []
                 = Some (Ret true, [GetAuthorFeed sample_handle 100 VUndefined;
                                    GetAuthorFeed sample_handle 100 (cursor_token 1)]))
    by (vm_compute; reflexivity).
  destruct (scan_follows_cursors _ _ _ _ _ _ _ Hrun)
    as [(e & He & _) | (handle & fs & tail & Hh & Ht & Hfs & Htail)].
  - discriminate He.
  - injection Hh as <-. cbn [app] in Ht.
    destruct Htail as [-> | (e & ->)].
    + rewrite app_nil_r in Ht. now subst fs.
    + exfalso.
      apply (f_equal (fun l => existsb
               (fun ev => match ev with ConsoleWarn _ => true | _ => false end) l)) in Ht.
      rewrite existsb_app in Ht. cbn in Ht. rewrite orb_true_r in Ht. discriminate Ht.
Defined.

(** ** What a computation adds to the trace *)

Section Emits.

Variable P : Event -> bool.

Lemma emits_ret {A} (a : A) : emits P (ret a).
Proof. intros t o t' H. injection H as _ <-. exists []. now rewrite app_nil_r. Qed.

Lemma emits_throw {A} (e : JsError) : emits P (@throw A e).
Proof. intros t o t' H. injection H as _ <-. exists []. now rewrite app_nil_r. Qed.

Lemma emits_lift {A} (r : Res A) : emits P (lift r).
Proof. destruct r; [apply emits_throw | apply emits_ret]. Qed.

Lemma emits_current_time w : emits P (current_time w).
Proof. intros t o t' H. injection H as _ <-. exists []. now rewrite app_nil_r. Qed.

Lemma emits_emit e : P e = true -> emits P (emit e).
Proof.
  intros He t o t' H. injection H as _ <-. exists [e]. split; [reflexivity|].
  simpl. now rewrite He.
Qed.

Lemma emits_request {A} e (answer : Trace -> Res A) :
  P e = true -> emits P (request e answer).
Proof.
  intros He t o t' H. unfold request in H.
  destruct (answer t); injection H as _ <-; exists [e];
    (split; [reflexivity|]); simpl; now rewrite He.
Qed.

Lemma emits_bind {A B} (m : M A) (k : A -> M B) :
  emits P m -> (forall a, emits P (k a)) -> emits P (bind m k).
Proof.
  intros Hm Hk t o t' H. unfold bind in H.
  destruct (m t) as [[[a|e|c] t1]|] eqn:E; try discriminate.
  - apply Hm in E as (evs1 & -> & H1).
    apply Hk in H as (evs2 & -> & H2).
    exists (evs1 ++ evs2). rewrite app_assoc, forallb_app, H1, H2. auto.
  - injection H as _ <-. eapply Hm. exact E.
  - injection H as _ <-. eapply Hm. exact E.
Qed.

Lemma emits_try_catch {A} (body : M A) (handler : JsError -> M A) :
  emits P body -> (forall e, emits P (handler e)) -> emits P (try_catch body handler).
Proof.
  intros Hb Hh t o t' H. unfold try_catch in H.
  destruct (body t) as [[[a|e|c] t1]|] eqn:E; try discriminate.
  - injection H as _ <-. eapply Hb. exact E.
  - apply Hb in E as (evs1 & -> & H1).
    apply Hh in H as (evs2 & -> & H2).
    exists (evs1 ++ evs2). rewrite app_assoc, forallb_app, H1, H2. auto.
  - injection H as _ <-. eapply Hb. exact E.
Qed.

Lemma emits_getLatestRSSPost w p :
  P (ReadFile p) = true -> emits P (getLatestRSSPost w p).
Proof.
  intros Hp. unfold getLatestRSSPost.
  apply emits_bind; [now apply emits_request|]. intros content.
  apply emits_bind; [apply emits_lift|]. intros feed.
  destruct (items feed) as [[|i l]|]; [apply emits_throw | apply emits_ret | apply emits_throw].
Qed.

Lemma emits_getBlueskyAgent w :
  P (login_of w) = true -> emits P (getBlueskyAgent w).
Proof.
  intros Hp. unfold getBlueskyAgent.
  destruct (negb _); [apply emits_throw|].
  destruct (negb _); [apply emits_throw|].
  apply emits_bind; [now apply emits_request|]. intros s. apply emits_ret.
Qed.

Lemma emits_scan_loop w handle link0 :
  (forall cursor, P (GetAuthorFeed handle 100 cursor) = true) ->
  forall fuel cursor hasMore pc,
    emits P (scan_loop w fuel handle link0 cursor hasMore pc).
Proof.
  intros Hp. induction fuel as [|fuel IH]; intros cursor hasMore pc;
    cbn [scan_loop]; destruct (hasMore && (pc <? maxPostsToCheck));
    try apply emits_ret.
  - intros t o t' H. discriminate H.
  - apply emits_bind; [now apply emits_request|]. intros response.
    apply emits_bind; [apply emits_lift|]. intros data.
    destruct (negb (truthyV data)); [apply emits_ret|].
    apply emits_bind; [apply emits_lift|]. intros feed.
    destruct (negb (truthyV feed)); [apply emits_ret|].
    apply emits_bind; [apply emits_lift|]. intros feedItems.
    apply emits_bind; [apply emits_lift|]. intros [|pc']; [apply emits_ret|].
    apply emits_bind; [apply emits_lift|]. intros cursor'. apply IH.
Qed.

Lemma emits_hasLinkBeenPosted w fuel agent link0 :
  (forall handle cursor, P (GetAuthorFeed handle 100 cursor) = true) ->
  (forall e, P (search_warning e) = true) ->
  emits P (hasLinkBeenPosted w fuel agent link0).
Proof.
  intros Hf Hw. unfold hasLinkBeenPosted.
  apply emits_try_catch.
  - unfold hasLinkBeenPosted_try.
    apply emits_bind; [apply emits_lift|]. intros handle.
    apply emits_scan_loop. intros cursor. apply Hf.
  - intros e. apply emits_bind; [apply emits_emit, Hw | intros; apply emits_ret].
Qed.

Lemma emits_sendBlueskyPost w text0 url :
  P (login_of w) = true ->
  (forall repo record, P (CreateRecord repo (js "app.bsky.feed.post") record) = true) ->
  emits P (sendBlueskyPost w text0 url).
Proof.
  intros Hl Hc. unfold sendBlueskyPost.
  destruct (negb (truthy text0)); [apply emits_throw|].
  apply emits_bind; [now apply emits_getBlueskyAgent|]. intros agent.
  apply emits_bind; [apply emits_current_time|]. intros now.
  apply emits_bind; [apply emits_lift|]. intros repo.
  apply emits_bind; [apply emits_request, Hc|]. intros response. apply emits_ret.
Qed.

Lemma emits_postLatestToBluesky_try w fuel rssPath :
  (forall args, P (ConsoleLog args) = true) ->
  (forall args, P (ConsoleWarn args) = true) ->
  P (ReadFile rssPath) = true ->
  (forall i p, P (Login i p) = true) ->
  (forall a l c, P (GetAuthorFeed a l c) = true) ->
  (forall r c p, P (CreateRecord r c p) = true) ->
  emits P (postLatestToBluesky_try w fuel rssPath).
Proof.
  intros Hlog Hwarn Hread Hlogin Hfetch Hcreate.
  unfold postLatestToBluesky_try, console_log.
  apply emits_bind; [apply emits_emit, Hlog|]. intros _.
  apply emits_bind; [now apply emits_getLatestRSSPost|]. intros latestPost.
  destruct (negb (truthy (link latestPost))); [apply emits_throw|].
  apply emits_bind; [apply emits_emit, Hlog|]. intros _.
  apply emits_bind; [apply emits_emit, Hlog|]. intros _.
  apply emits_bind; [apply emits_getBlueskyAgent, Hlogin|]. intros agent.
  apply emits_bind; [apply emits_emit, Hlog|]. intros _.
  apply emits_bind.
  { apply emits_hasLinkBeenPosted; [intros; apply Hfetch | intros; apply Hwarn]. }
  intros [|].
  - apply emits_bind; [apply emits_emit, Hlog | intros; apply emits_ret].
  - cbv zeta.
    apply emits_bind; [apply emits_emit, Hlog|]. intros _.
    apply emits_bind.
    { apply emits_sendBlueskyPost; [apply Hlogin | intros; apply Hcreate]. }
    intros response.
    apply emits_bind; [apply emits_lift|]. intros data.
    apply emits_bind; [apply emits_lift|]. intros uri0.
    apply emits_emit, Hlog.
Qed.

End Emits.

(** ** Posting *)

Lemma getBlueskyAgent_run w t :
  env_truthy (env_BLUESKY_USERNAME w) = true ->
  env_truthy (env_BLUESKY_PASSWORD w) = true ->
  getBlueskyAgent w t
  = match agent_login w t (opt_value (env_BLUESKY_USERNAME w))
            (opt_value (env_BLUESKY_PASSWORD w)) with
    | inl e => Some (Throw e, t ++ [login_of w])
    | inr s => Some (Ret {| session := s |}, t ++ [login_of w])
    end.
Proof.
  intros Hu Hp. unfold getBlueskyAgent. rewrite Hu, Hp. cbn [negb].
  unfold bind, request, login_of.
  destruct (agent_login w t _ _); reflexivity.
Qed.

Lemma sendBlueskyPost_run w text0 url t s repo :
  truthy text0 = true ->
  env_truthy (env_BLUESKY_USERNAME w) = true ->
  env_truthy (env_BLUESKY_PASSWORD w) = true ->
  agent_login w t (opt_value (env_BLUESKY_USERNAME w))
    (opt_value (env_BLUESKY_PASSWORD w)) = ok s ->
  get s "did" = ok repo ->
  sendBlueskyPost w text0 url t
  = match createRecord w (t ++ [login_of w]) repo (js "app.bsky.feed.post")
            (sendBlueskyPost_record text0 url (clock w (t ++ [login_of w]))) with
    | inl e =>
        Some (Throw e,
              (t ++ [login_of w])
              ++ [CreateRecord repo (js "app.bsky.feed.post")
                    (sendBlueskyPost_record text0 url (clock w (t ++ [login_of w])))])
    | inr r =>
        Some (Ret r,
              (t ++ [login_of w])
              ++ [CreateRecord repo (js "app.bsky.feed.post")
                    (sendBlueskyPost_record text0 url (clock w (t ++ [login_of w])))])
    end.
Proof.
  intros Ht Hu Hp Hlogin Hdid.
  unfold sendBlueskyPost. rewrite Ht. cbn [negb].
  unfold bind at 1. rewrite (getBlueskyAgent_run w t Hu Hp).
  unfold ok in Hlogin. rewrite Hlogin.
  unfold bind at 1. unfold current_time.
  unfold bind at 1. cbn [session]. rewrite Hdid. cbn [lift ok ret].
  unfold bind, request.
  destruct (createRecord w _ repo _ _); reflexivity.
Qed.

(** X6: [sendBlueskyPost] refuses an empty text before it looks at the
    secrets or the network.  With a text, both secrets and a login that
    yields a session with a [did], it logs in once and submits once, to the
    repository [session.did] and the collection [app.bsky.feed.post], the
    record built from its arguments and stamped with the time after the
    login; it returns the response of that call as it is, and a rejected
    submission is thrown on without a second attempt. *)
Theorem sendBlueskyPost_one_attempt w text0 url t :
  (truthy text0 = false ->
   sendBlueskyPost w text0 url t = Some (Throw no_text_error, t))
  /\ (forall s repo,
        truthy text0 = true ->
        env_truthy (env_BLUESKY_USERNAME w) = true ->
        env_truthy (env_BLUESKY_PASSWORD w) = true ->
        agent_login w t (opt_value (env_BLUESKY_USERNAME w))
          (opt_value (env_BLUESKY_PASSWORD w)) = ok s ->
        get s "did" = ok repo ->
        let t1 := t ++ [login_of w] in
        let record := sendBlueskyPost_record text0 url (clock w t1) in
        let submission := CreateRecord repo (js "app.bsky.feed.post") record in
        (forall response,
           createRecord w t1 repo (js "app.bsky.feed.post") record = ok response ->
           sendBlueskyPost w text0 url t = Some (Ret response, t1 ++ [submission]))
        /\ (forall e,
              createRecord w t1 repo (js "app.bsky.feed.post") record = raise e ->
              sendBlueskyPost w text0 url t = Some (Throw e, t1 ++ [submission]))).
Proof.
  split.
  - intros Ht. unfold sendBlueskyPost. now rewrite Ht.
  - intros s repo Ht Hu Hp Hlogin Hdid t1 record submission.
    assert (Hrun := sendBlueskyPost_run w text0 url t s repo Ht Hu Hp Hlogin Hdid).
    fold t1 in Hrun. fold record in Hrun. fold submission in Hrun.
    split.
    + intros response Hc. unfold ok in Hc. now rewrite Hc in Hrun.
    + intros e Hc. unfold raise in Hc. now rewrite Hc in Hrun.
Qed.

Lemma sendBlueskyPost_one_attempt_witness :
  sendBlueskyPost rejecting_world (js "Hello") (Some sample_link) []
  = Some (Throw (Err (js "rejected")),
          [login_of rejecting_world;
           CreateRecord (VStr (js "did:plc:abc")) (js "app.bsky.feed.post")
             (sendBlueskyPost_record (js "Hello") (Some sample_link)
                (js "2026-01-01T00:00:00.000Z"))]).
Proof.
  destruct (sendBlueskyPost_one_attempt rejecting_world (js "Hello")
              (Some sample_link) []) as [_ H].
  destruct (H sample_session (VStr (js "did:plc:abc")) eq_refl eq_refl eq_refl
              eq_refl eq_refl) as [_ Hthrow].
  exact (Hthrow (Err (js "rejected")) eq_refl).
Defined.

(** ** The run as a whole *)

Lemma no_error_logged_in_try w fuel rssPath o t :
  postLatestToBluesky_try w fuel rssPath [] = Some (o, t) ->
  existsb is_console_error t = false.
Proof.
  intros H.
  apply (emits_postLatestToBluesky_try (fun e => negb (is_console_error e))) in H
    as (evs & -> & Hevs); try (intros; reflexivity).
  cbn [app]. clear - Hevs.
  induction evs as [|e evs IH]; [reflexivity|].
  cbn [forallb] in Hevs. apply andb_true_iff in Hevs as [He Hevs].
  cbn [existsb]. rewrite (IH Hevs). now destruct (is_console_error e).
Qed.

Lemma postLatestToBluesky_outside_try w fuel rssUrl t :
  (forall s, rssUrl <> VStr s) ->
  postLatestToBluesky w fuel rssUrl t = Some (Throw (path_type_error w rssUrl), t).
Proof.
  intros Hns. destruct rssUrl; try reflexivity. now destruct (Hns s).
Qed.

(** X7: what [postLatestToBluesky] catches and what it does not.  Given a
    string as feed path, a run that ends never throws: either it returns
    normally, and then nothing was written to [console.error]; or it ends
    by [process.exit(1)], and then exactly one [console.error] line was
    written, as the last event of the run, carrying the message of the
    error that was thrown inside the [try] block.  Given anything else
    (the call without an argument passes [undefined]), the [TypeError] of
    [path.isAbsolute] is thrown before the [try] is entered: the call
    throws it on, having logged nothing, read nothing and called
    nothing, and the process is not exited. *)
Theorem failures_are_logged_and_exit w fuel rssUrl o t :
  postLatestToBluesky w fuel rssUrl [] = Some (o, t) ->
  (exists s,
     rssUrl = VStr s
     /\ ((o = Ret tt /\ existsb is_console_error t = false)
         \/ (exists e t0,
               o = Exit 1
               /\ t = t0 ++ [error_log e]
               /\ existsb is_console_error t0 = false
               /\ postLatestToBluesky_try w fuel (rssPath_of w s) []
                  = Some (Throw e, t0))))
  \/ ((forall s, rssUrl <> VStr s)
      /\ o = Throw (path_type_error w rssUrl) /\ t = []).
Proof.
  intros H.
  assert (Hstr : (exists s, rssUrl = VStr s) \/ (forall s, rssUrl <> VStr s))
    by (destruct rssUrl; try (right; intros s0; discriminate); left; eauto).
  destruct Hstr as [[s ->] | Hns].
  - left. exists s. split; [reflexivity|].
    apply postLatestToBluesky_cases in H as [[-> H] | (e & t0 & -> & -> & H)].
    + left. split; [reflexivity|]. eapply no_error_logged_in_try. exact H.
    + right. exists e, t0. repeat split; auto.
      eapply no_error_logged_in_try. exact H.
  - right. rewrite (postLatestToBluesky_outside_try _ _ _ _ Hns) in H.
    injection H as <- <-. auto.
Qed.

Lemma failures_are_logged_witness :
  (exists t0,
     postLatestToBluesky rejecting_world 1 (VStr (js "dist/rss.xml")) []
     = Some (Exit 1, t0 ++ [error_log (Err (js "rejected"))])
     /\ existsb is_console_error t0 = false)
  /\ postLatestToBluesky rejecting_world 1 VUndefined []
     = Some (Throw (node_path_type_error VUndefined), []).
Proof.
  split.
  - destruct (postLatestToBluesky rejecting_world 1 (VStr (js "dist/rss.xml")) [])
      as [[o t]|] eqn:E; [|vm_compute in E; discriminate E].
    destruct (failures_are_logged_and_exit _ _ _ _ _ E)
      as [(s & Hs & [[-> _] | (e & t0 & -> & -> & Hno & Htry)]) | (Hns & _)].
    + vm_compute in E. discriminate E.
    + exists t0. split; [|exact Hno].
      injection Hs as <-.
      assert (He : e = Err (js "rejected")).
      { vm_compute in Htry. injection Htry as He _. rewrite <- He. reflexivity. }
      now subst e.
    + now destruct (Hns (js "dist/rss.xml")).
  - destruct (postLatestToBluesky rejecting_world 1 VUndefined [])
      as [[o t]|] eqn:E; [|vm_compute in E; discriminate E].
    destruct (failures_are_logged_and_exit _ _ _ _ _ E)
      as [(s & Hs & _) | (_ & -> & ->)]; [discriminate Hs | reflexivity].
Defined.

(** X8: an entry without a link is fatal before anything else happens.
    When the feed's first item has no link (or an empty one), the run
    writes "Latest RSS post has no link" to [console.error] and exits with
    status 1; the secrets are not looked at and no network call is made. *)
Theorem entry_without_link_is_fatal w fuel rssUrl content feed first rest :
  readFileSync w (rssPath_of w rssUrl) = ok content ->
  parseString w content = ok feed ->
  items feed = Some (first :: rest) ->
  item_link first = None \/ item_link first = Some [] ->
  postLatestToBluesky w fuel (VStr rssUrl) []
  = Some (Exit 1, [reading_log; ReadFile (rssPath_of w rssUrl); error_log no_link_error]).
Proof.
  intros Hread Hparse Hitems Hlink.
  unfold postLatestToBluesky, try_catch, postLatestToBluesky_try. cbv zeta.
  log_step. cbn [app]. fold reading_log.
  unfold bind at 1. unfold getLatestRSSPost at 1.
  unfold bind at 1. unfold request. unfold ok in Hread, Hparse. rewrite Hread.
  unfold bind at 1. rewrite Hparse. cbn [lift ret]. rewrite Hitems.
  cbn [ret link]. rewrite or_else_empty.
  destruct Hlink as [-> | ->]; reflexivity.
Qed.

Lemma entry_without_link_witness :
  postLatestToBluesky world_without_link 1 (VStr (js "dist/rss.xml")) []
  = Some (Exit 1, [reading_log; ReadFile (js "/site/src/dist/rss.xml");
                   error_log no_link_error]).
Proof.
  exact (entry_without_link_is_fatal world_without_link 1 (js "dist/rss.xml")
           (js "<rss/>") _ {| item_title := Some (js "Hello"); item_link := None |} []
           eq_refl eq_refl eq_refl (or_introl eq_refl)).
Defined.

Lemma hasLinkBeenPosted_fetch_fails w fuel agent handle link0 t e :
  agent_handle agent = ok handle ->
  getAuthorFeed w t handle 100 VUndefined = raise e ->
  hasLinkBeenPosted w (S fuel) agent link0 t
  = Some (Ret false, (t ++ [GetAuthorFeed handle 100 VUndefined]) ++ [search_warning e]).
Proof.
  intros Hh He. apply hasLinkBeenPosted_caught.
  rewrite (hasLinkBeenPosted_try_scan _ _ _ _ _ _ Hh).
  apply scan_loop_fetch_fails; [reflexivity | exact He].
Qed.

(** X9: a history search that fails does not block the post.  With both
    secrets set, a feed whose first item has a link, a login that succeeds,
    a history request that fails, and a record creation that is accepted,
    the run warns about the search, goes on to submit the record built
    from the entry (its title, or "New post" when the title is empty, and
    its link), logs the created URI and returns normally.  Its network
    calls are: login, the one failed history request, login, record
    creation. *)
Theorem search_failure_does_not_block_posting
    w fuel rssUrl content feed first rest s handle repo e response data uri0 :
  env_truthy (env_BLUESKY_USERNAME w) = true ->
  env_truthy (env_BLUESKY_PASSWORD w) = true ->
  readFileSync w (rssPath_of w rssUrl) = ok content ->
  parseString w content = ok feed ->
  items feed = Some (first :: rest) ->
  truthy (opt_value (item_link first)) = true ->
  (forall t, agent_login w t (opt_value (env_BLUESKY_USERNAME w))
               (opt_value (env_BLUESKY_PASSWORD w)) = ok s) ->
  agent_handle {| session := s |} = ok handle ->
  get s "did" = ok repo ->
  (forall t, getAuthorFeed w t handle 100 VUndefined = raise e) ->
  (forall t record, createRecord w t repo (js "app.bsky.feed.post") record = ok response) ->
  get response "data" = ok data ->
  get data "uri" = ok uri0 ->
  exists t now,
    postLatestToBluesky w (S fuel) (VStr rssUrl) [] = Some (Ret tt, t)
    /\ network_calls t
       = [login_of w;
          GetAuthorFeed handle 100 VUndefined;
          login_of w;
          CreateRecord repo (js "app.bsky.feed.post")
            (sendBlueskyPost_record
               (or_else (opt_value (item_title first)) (js "New post"))
               (Some (opt_value (item_link first))) now)]
    /\ In (search_warning e) t
    /\ In (created_log uri0) t.
Proof.
  intros Hu Hp Hread Hparse Hitems Hlink Hlogin Hhandle Hdid Hfeed Hcreate Hdata Huri.
  unfold ok in Hlogin, Hcreate, Hdata, Huri.
  unfold postLatestToBluesky, try_catch, postLatestToBluesky_try. cbv zeta.
  log_step. cbn [app]. fold reading_log.
  unfold bind at 1. unfold getLatestRSSPost at 1.
  unfold bind at 1. unfold request. unfold ok in Hread, Hparse. rewrite Hread.
  unfold bind at 1. rewrite Hparse. cbn [lift ret]. rewrite Hitems.
  cbn [ret link title]. rewrite !or_else_empty, Hlink. cbn [negb].
  log_step. log_step.
  unfold bind at 1. rewrite (getBlueskyAgent_run w _ Hu Hp), Hlogin.
  log_step.
  unfold bind at 1.
  rewrite (hasLinkBeenPosted_fetch_fails w fuel _ handle _ _ e Hhandle (Hfeed _)).
  log_step.
  unfold bind at 1.
  assert (Htext : truthy (or_else (opt_value (item_title first)) (js "New post")) = true)
    by (apply or_else_truthy; reflexivity).
  rewrite (sendBlueskyPost_run w _ _ _ s repo Htext Hu Hp (Hlogin _) Hdid).
  rewrite Hcreate.
  unfold bind at 1. rewrite Hdata. cbn [lift ok ret].
  unfold bind at 1. rewrite Huri. cbn [lift ok ret].
  unfold console_log, emit.
  eexists. eexists. split; [reflexivity|].
  split; [|split].
  - unfold network_calls. rewrite !filter_app. cbn. reflexivity.
  - rewrite !in_app_iff. cbn. tauto.
  - rewrite !in_app_iff. cbn. tauto.
Qed.

Lemma search_failure_witness :
  exists t now,
    postLatestToBluesky offline_world 1 (VStr (js "dist/rss.xml")) [] = Some (Ret tt, t)
    /\ network_calls t
       = [login_of offline_world;
          GetAuthorFeed sample_handle 100 VUndefined;
          login_of offline_world;
          CreateRecord (VStr (js "did:plc:abc")) (js "app.bsky.feed.post")
            (sendBlueskyPost_record (js "Hello") (Some sample_link) now)].
Proof.
  destruct (search_failure_does_not_block_posting offline_world 0 (js "dist/rss.xml")
              (js "<rss/>") sample_feed
              {| item_title := Some (js "Hello"); item_link := Some sample_link |}
              [{| item_title := Some (js "Older");
                  item_link := Some (js "https://x.test/0") |}]
              sample_session sample_handle (VStr (js "did:plc:abc"))
              (Err (js "fetch failed"))
              (VObj [("data"%string,
                      VObj [("uri"%string,
                             VStr (js "at://did:plc:abc/app.bsky.feed.post/1"))])])
              (VObj [("uri"%string, VStr (js "at://did:plc:abc/app.bsky.feed.post/1"))])
              (VStr (js "at://did:plc:abc/app.bsky.feed.post/1")))
    as (t & now & Hrun & Hnet & _); try reflexivity.
  exists t, now. split; [exact Hrun | exact Hnet].
Defined.

(** X10: a run creates at most one record, and nothing goes over the
    network after it: among the network calls of a run, a record creation
    occurs at most once, and when it occurs it is the last one. *)
Theorem at_most_one_submission w fuel (rssUrl : JsVal) o t :
  postLatestToBluesky w fuel rssUrl [] = Some (o, t) ->
  existsb is_submission t = false
  \/ (exists calls submission,
        network_calls t = calls ++ [submission]
        /\ is_submission submission = true
        /\ existsb is_submission calls = false).
Proof.
  intros H.
  destruct rssUrl as [| | | |rssUrl| |];
    try (injection H as _ <-; left; reflexivity).
  assert (Hshape : exists o0 t0 extra,
             postLatestToBluesky_try w fuel (rssPath_of w rssUrl) [] = Some (o0, t0)
             /\ t = t0 ++ extra /\ network_calls extra = []).
  { apply postLatestToBluesky_cases in H as [[_ H] | (e & t0 & _ & -> & H)].
    - exists (Ret tt), t, []. rewrite app_nil_r. auto.
    - exists (Throw e), t0, [error_log e]. auto. }
  destruct Hshape as (o0 & t0 & extra & Htry & -> & Hextra).
  apply postLatestToBluesky_try_shape in Htry as [_ (after & -> & Hcases)].
  assert (Hnet : network_calls (([reading_log; ReadFile (rssPath_of w rssUrl)] ++ after) ++ extra)
                 = network_calls after).
  { rewrite !network_calls_app, Hextra, app_nil_r. reflexivity. }
  rewrite submissions_are_network, Hnet.
  destruct Hcases as [[Hn _] | [[Hn _] | [(fs & Hfs & Hn & _) | [(fs & Hfs & Hn & _)
                     | (fs & repo & record & Hfs & Hn)]]]]; rewrite Hn.
  - now left.
  - now left.
  - left. cbn. apply fetches_not_submissions, Hfs.
  - left. cbn. rewrite existsb_app, (fetches_not_submissions fs Hfs). reflexivity.
  - right. exists (login_of w :: fs ++ [login_of w]),
             (CreateRecord repo (js "app.bsky.feed.post") record).
    split; [cbn; now rewrite <- app_assoc|]. split; [reflexivity|].
    cbn. rewrite existsb_app, (fetches_not_submissions fs Hfs). reflexivity.
Qed.

Lemma at_most_one_submission_witness :
  exists t calls submission,
    postLatestToBluesky (sample_world []) 1 (VStr (js "dist/rss.xml")) [] = Some (Ret tt, t)
    /\ network_calls t = calls ++ [submission]
    /\ is_submission submission = true
    /\ existsb is_submission calls = false.
Proof.
  destruct (postLatestToBluesky (sample_world []) 1 (VStr (js "dist/rss.xml")) [])
    as [[o t]|] eqn:E; [|vm_compute in E; discriminate E].
  assert (Ho : o = Ret tt) by (vm_compute in E; now injection E as <- _).
  subst o.
  destruct (at_most_one_submission _ _ _ _ _ E)
    as [Hno | (calls & submission & Hn & Hs & Hc)].
  - exfalso. vm_compute in E. injection E as <-. discriminate Hno.
  - exists t, calls, submission. auto.
Defined.

(** ** What the module posts, it finds again *)

Lemma includes_occurs s p : occurs_in p s -> includes s p = true.
Proof.
  intros H. unfold includes.
  destruct (Z.eqb_spec (indexOf s p) (-1)) as [E | E]; [|reflexivity].
  apply indexOf_minus_one in E. contradiction.
Qed.

(** X11: the duplicate test recognises the records the module itself
    submits.  A record built by [sendBlueskyPost] for a non-empty URL, as
    the listing endpoint hands it back, matches that URL; and it still
    matches by its link facet alone, whatever the text has become. *)
Theorem own_post_is_recognised (text0 url now : jsstring) :
  truthy url = true ->
  let r := sendBlueskyPost_record text0 (Some url) now in
  check_item url (history_item (enc_record r)) = ok true
  /\ (forall text', check_item url (history_item (enc_record (with_text r text'))) = ok true).
Proof.
  intros Hu. cbv zeta.
  assert (Hfacet : forall text',
             check_item url
               (history_item
                  (enc_record (with_text (sendBlueskyPost_record text0 (Some url) now) text')))
             = ok true).
  { intros text'.
    unfold sendBlueskyPost_record. rewrite (url_given_truthy _ Hu). cbv zeta.
    destruct (negb (indexOf text0 url =? -1));
      cbn -[includes JsString.eqb link_feature_type];
      (destruct (truthy text'); cbn -[includes JsString.eqb link_feature_type];
       [destruct (includes text' url); cbn -[JsString.eqb link_feature_type];
        [reflexivity|] |]);
      unfold link_feature_type; rewrite !eqb_refl; reflexivity. }
  split; [|exact Hfacet].
  specialize (Hfacet (text (sendBlueskyPost_record text0 (Some url) now))).
  destruct (sendBlueskyPost_record text0 (Some url) now); exact Hfacet.
Qed.

Lemma own_post_is_recognised_witness :
  check_item sample_link
    (history_item
       (enc_record (sendBlueskyPost_record (js "Hello") (Some sample_link) (js "now"))))
  = ok true.
Proof.
  exact (proj1 (own_post_is_recognised (js "Hello") sample_link (js "now") eq_refl)).
Defined.

(** ** Fatal failures *)

(** X12: a rejected login is fatal.  With both secrets set and a feed whose
    first item has a link, a login that fails makes the run log the error
    and exit with status 1; the login is its only network call: no history
    is read and nothing is submitted. *)
Theorem rejected_login_is_fatal w fuel rssUrl content feed first rest e :
  env_truthy (env_BLUESKY_USERNAME w) = true ->
  env_truthy (env_BLUESKY_PASSWORD w) = true ->
  readFileSync w (rssPath_of w rssUrl) = ok content ->
  parseString w content = ok feed ->
  items feed = Some (first :: rest) ->
  truthy (opt_value (item_link first)) = true ->
  (forall t, agent_login w t (opt_value (env_BLUESKY_USERNAME w))
               (opt_value (env_BLUESKY_PASSWORD w)) = raise e) ->
  exists t,
    postLatestToBluesky w fuel (VStr rssUrl) [] = Some (Exit 1, t ++ [error_log e])
    /\ network_calls (t ++ [error_log e]) = [login_of w].
Proof.
  intros Hu Hp Hread Hparse Hitems Hlink Hlogin.
  unfold raise in Hlogin.
  unfold postLatestToBluesky, try_catch, postLatestToBluesky_try. cbv zeta.
  log_step. cbn [app]. fold reading_log.
  unfold bind at 1. unfold getLatestRSSPost at 1.
  unfold bind at 1. unfold request. unfold ok in Hread, Hparse. rewrite Hread.
  unfold bind at 1. rewrite Hparse. cbn [lift ret]. rewrite Hitems.
  cbn [ret link title]. rewrite !or_else_empty, Hlink. cbn [negb].
  log_step. log_step.
  unfold bind at 1. rewrite (getBlueskyAgent_run w _ Hu Hp), Hlogin.
  unfold bind, console_error, emit, process_exit.
  eexists. split; [reflexivity|].
  unfold network_calls. rewrite !filter_app. reflexivity.
Qed.

Lemma rejected_login_witness :
  exists t,
    postLatestToBluesky world_rejecting_login 1 (VStr (js "dist/rss.xml")) []
    = Some (Exit 1, t ++ [error_log (Err (js "Invalid identifier or password"))])
    /\ network_calls (t ++ [error_log (Err (js "Invalid identifier or password"))])
       = [login_of world_rejecting_login].
Proof.
  exact (rejected_login_is_fatal world_rejecting_login 1 (js "dist/rss.xml")
           (js "<rss/>") sample_feed
           {| item_title := Some (js "Hello"); item_link := Some sample_link |}
           [{| item_title := Some (js "Older");
               item_link := Some (js "https://x.test/0") |}]
           (Err (js "Invalid identifier or password"))
           eq_refl eq_refl eq_refl eq_refl eq_refl eq_refl (fun _ => eq_refl)).
Defined.

(** X13: a rejected submission is fatal and is not retried.  When the
    duplicate scan has answered [false] and the record creation fails, the
    run logs that error and exits with status 1, after exactly one
    [createRecord] call. *)
Theorem rejected_submission_is_fatal
    w fuel rssUrl content feed first rest s repo e t3 :
  env_truthy (env_BLUESKY_USERNAME w) = true ->
  env_truthy (env_BLUESKY_PASSWORD w) = true ->
  readFileSync w (rssPath_of w rssUrl) = ok content ->
  parseString w content = ok feed ->
  items feed = Some (first :: rest) ->
  truthy (opt_value (item_link first)) = true ->
  (forall t, agent_login w t (opt_value (env_BLUESKY_USERNAME w))
               (opt_value (env_BLUESKY_PASSWORD w)) = ok s) ->
  get s "did" = ok repo ->
  hasLinkBeenPosted w fuel {| session := s |} (opt_value (item_link first))
    ([reading_log; ReadFile (rssPath_of w rssUrl)]
     ++ latest_logs {| title := opt_value (item_title first);
                       link := opt_value (item_link first) |}
     ++ [login_of w; checking_log])
  = Some (Ret false, t3) ->
  (forall t record, createRecord w t repo (js "app.bsky.feed.post") record = raise e) ->
  exists now,
    postLatestToBluesky w fuel (VStr rssUrl) []
    = Some (Exit 1,
            t3 ++ [posting_log; login_of w;
                   CreateRecord repo (js "app.bsky.feed.post")
                     (sendBlueskyPost_record
                        (or_else (opt_value (item_title first)) (js "New post"))
                        (Some (opt_value (item_link first))) now);
                   error_log e]).
Proof.
  intros Hu Hp Hread Hparse Hitems Hlink Hlogin Hdid Hscan Hcreate.
  unfold ok in Hlogin. unfold raise in Hcreate.
  cbn [app latest_logs title link] in Hscan.
  unfold postLatestToBluesky, try_catch, postLatestToBluesky_try. cbv zeta.
  log_step. cbn [app]. fold reading_log.
  unfold bind at 1. unfold getLatestRSSPost at 1.
  unfold bind at 1. unfold request. unfold ok in Hread, Hparse. rewrite Hread.
  unfold bind at 1. rewrite Hparse. cbn [lift ret]. rewrite Hitems.
  cbn [ret link title]. rewrite !or_else_empty, Hlink. cbn [negb].
  log_step. log_step.
  unfold bind at 1. rewrite (getBlueskyAgent_run w _ Hu Hp), Hlogin.
  log_step. fold checking_log.
  unfold bind at 1. cbn [app]. rewrite Hscan.
  log_step. fold posting_log.
  unfold bind at 1.
  assert (Htext : truthy (or_else (opt_value (item_title first)) (js "New post")) = true)
    by (apply or_else_truthy; reflexivity).
  rewrite (sendBlueskyPost_run w _ _ _ s repo Htext Hu Hp (Hlogin _) Hdid).
  rewrite Hcreate.
  unfold bind, console_error, emit, process_exit.
  eexists. rewrite <- !app_assoc. reflexivity.
Qed.

Lemma rejected_submission_witness :
  exists now,
    postLatestToBluesky rejecting_world 1 (VStr (js "dist/rss.xml")) []
    = Some (Exit 1,
            ([reading_log; ReadFile (js "/site/src/dist/rss.xml")]
             ++ latest_logs {| title := js "Hello"; link := sample_link |}
             ++ [login_of rejecting_world; checking_log;
                 GetAuthorFeed sample_handle 100 VUndefined])
            ++ [posting_log; login_of rejecting_world;
                CreateRecord (VStr (js "did:plc:abc")) (js "app.bsky.feed.post")
                  (sendBlueskyPost_record (js "Hello") (Some sample_link) now);
                error_log (Err (js "rejected"))]).
Proof.
  exact (rejected_submission_is_fatal rejecting_world 1 (js "dist/rss.xml")
           (js "<rss/>") sample_feed
           {| item_title := Some (js "Hello"); item_link := Some sample_link |}
           [{| item_title := Some (js "Older");
               item_link := Some (js "https://x.test/0") |}]
           sample_session (VStr (js "did:plc:abc")) (Err (js "rejected")) _
           eq_refl eq_refl eq_refl eq_refl eq_refl eq_refl (fun _ => eq_refl)
           eq_refl eq_refl (fun _ _ => eq_refl)).
Defined.

(** ** Where code units are bytes *)

Lemma utf8_of_code_point_length cp :
  (1 <= List.length (utf8_of_code_point cp))%nat
  /\ (List.length (utf8_of_code_point cp) = 1%nat <-> (cp <? 0x80)%N = true).
Proof.
  unfold utf8_of_code_point.
  destruct (cp <? 0x80)%N; [simpl; split; [lia | tauto]|].
  destruct (cp <? 0x800)%N; [simpl; split; [lia | split; [lia | discriminate]]|].
  destruct (cp <? 0x10000)%N; simpl; (split; [lia | split; [lia | discriminate]]).
Qed.

Lemma utf8_of_astral_length hi lo :
  List.length (utf8_of_code_point (0x10000 + hi + lo)%N) = 4%nat.
Proof.
  unfold utf8_of_code_point.
  replace (0x10000 + hi + lo <? 0x80)%N with false by (symmetry; apply N.ltb_ge; lia).
  replace (0x10000 + hi + lo <? 0x800)%N with false by (symmetry; apply N.ltb_ge; lia).
  replace (0x10000 + hi + lo <? 0x10000)%N with false by (symmetry; apply N.ltb_ge; lia).
  reflexivity.
Qed.

(** A string takes at least as many bytes as it has code units, and exactly
    as many only when it is ASCII. *)
Lemma utf8_length_bounds : forall n s,
  (List.length s <= n)%nat ->
  (List.length s <= List.length (utf8_encode s))%nat
  /\ (List.length (utf8_encode s) = List.length s -> is_ascii s = true).
Proof.
  unfold utf8_encode.
  induction n as [|n IH]; intros s Hn.
  - destruct s; [simpl; auto | simpl in Hn; lia].
  - destruct s as [|c rest]; [simpl; auto|].
    simpl in Hn. cbn [code_points].
    destruct (is_high_surrogate c) eqn:Hh.
    + destruct rest as [|d rest'].
      * simpl. split; [lia | intros H; discriminate H].
      * destruct (is_low_surrogate d).
        -- cbn [flat_map]. rewrite List.length_app, utf8_of_astral_length.
           destruct (IH rest') as [Hle _]; [simpl in Hn; lia|].
           simpl List.length. split; lia.
        -- cbn [flat_map]. rewrite List.length_app.
           destruct (IH (d :: rest')) as [Hle _]; [simpl in Hn |- *; lia|].
           change (List.length (utf8_of_code_point 0xFFFD)) with 3%nat.
           simpl List.length in *. split; lia.
    + destruct (is_low_surrogate c) eqn:Hl.
      * cbn [flat_map]. rewrite List.length_app.
        destruct (IH rest) as [Hle _]; [lia|].
        change (List.length (utf8_of_code_point 0xFFFD)) with 3%nat.
        simpl List.length. split; lia.
      * cbn [flat_map]. rewrite List.length_app.
        destruct (IH rest) as [Hle Heq]; [lia|].
        destruct (utf8_of_code_point_length c) as [H1 Hone].
        simpl List.length. split; [lia|].
        intros H. cbn [is_ascii forallb].
        assert (Hc : List.length (utf8_of_code_point c) = 1%nat) by lia.
        apply Hone in Hc. rewrite Hc. apply Heq. lia.
Qed.

Lemma byteLength_ge s : JsString.length s <= byteLength s.
Proof.
  unfold JsString.length, byteLength.
  destruct (utf8_length_bounds (List.length s) s (le_n _)) as [H _]. lia.
Qed.

Lemma byteLength_eq_iff_ascii s : byteLength s = JsString.length s <-> is_ascii s = true.
Proof.
  split; [|apply byteLength_ascii].
  unfold JsString.length, byteLength. intros H.
  destruct (utf8_length_bounds (List.length s) s (le_n _)) as [_ Heq].
  apply Heq. lia.
Qed.

(** Where [sendBlueskyPost] puts the facet, in code units. *)
Lemma facet_position text0 url now :
  truthy url = true ->
  exists a b,
    text (sendBlueskyPost_record text0 (Some url) now) = a ++ url ++ b
    /\ facet_range (sendBlueskyPost_record text0 (Some url) now)
       = Some (JsString.length a, JsString.length a + JsString.length url)
    /\ (forall a' b', text0 = a' ++ url ++ b' -> (List.length a <= List.length a')%nat).
Proof.
  intros Hu.
  destruct (occurs_or_not url text0) as [Hocc | Hno].
  - destruct (facet_existing_code_units text0 url now Hu Hocc)
      as (a & b & Hs & Hmin & Ht & Hr).
    exists a, b. rewrite Ht. auto.
  - unfold sendBlueskyPost_record. rewrite (url_given_truthy _ Hu). cbv zeta.
    assert (Hi := Hno). apply indexOf_minus_one in Hi. rewrite Hi, Z.eqb_refl.
    set (sep := if endsWith text0 (js " ") then empty else js " ").
    cbn [negb text]. unfold facet_range. cbn [facets index byteStart byteEnd].
    exists (text0 ++ sep), []. rewrite app_nil_r, <- app_assoc.
    split; [reflexivity|]. split.
    + rewrite (app_assoc text0 sep url), (length_app (text0 ++ sep) url).
      do 2 f_equal. lia.
    + intros a' b' E. exfalso. apply Hno. now exists a', b'.
Qed.

(** X14: the facet is a byte range exactly on ASCII.  The range that
    [sendBlueskyPost] computes starts at the number of code units before
    the URL and is as long as the URL in code units; it coincides with the
    range measured in encoded bytes if and only if the text before the URL
    and the URL itself are ASCII.  A single non-ASCII character at or
    before the URL makes the range fall short. *)
Theorem facet_is_byte_range_iff_ascii (text0 url now : jsstring) :
  truthy url = true ->
  exists a b,
    text (sendBlueskyPost_record text0 (Some url) now) = a ++ url ++ b
    /\ facet_range (sendBlueskyPost_record text0 (Some url) now)
       = Some (JsString.length a, JsString.length a + JsString.length url)
    /\ (facet_range (sendBlueskyPost_record text0 (Some url) now)
        = Some (byteLength a, byteLength a + byteLength url)
        <-> is_ascii (a ++ url) = true)
    /\ JsString.length a <= byteLength a
    /\ JsString.length a + JsString.length url <= byteLength a + byteLength url.
Proof.
  intros Hu.
  destruct (facet_position text0 url now Hu) as (a & b & Ht & Hr & _).
  exists a, b. split; [exact Ht|]. split; [exact Hr|].
  assert (Ha := byteLength_ge a). assert (Hurl := byteLength_ge url).
  split; [|lia].
  rewrite Hr, is_ascii_app, andb_true_iff, <- !byteLength_eq_iff_ascii. split.
  - intros E. injection E as E1 E2. lia.
  - intros [E1 E2]. now rewrite E1, E2.
Qed.

Lemma facet_is_byte_range_witness :
  exists a b,
    text (sendBlueskyPost_record (js "Caf" ++ [0xE9%N]) (Some sample_link) (js "now"))
    = a ++ sample_link ++ b
    /\ facet_range (sendBlueskyPost_record (js "Caf" ++ [0xE9%N]) (Some sample_link) (js "now"))
       <> Some (byteLength a, byteLength a + byteLength sample_link).
Proof.
  destruct (facet_is_byte_range_iff_ascii (js "Caf" ++ [0xE9%N]) sample_link (js "now")
              eq_refl) as (a & b & Ht & Hr & Hiff & _).
  exists a, b. split; [exact Ht|].
  intros E. apply Hiff in E.
  assert (Ha : a = js "Caf" ++ [0xE9%N; 32%N]).
  { assert (Hlen : JsString.length a = 5).
    { assert (Hc : facet_range (sendBlueskyPost_record (js "Caf" ++ [0xE9%N])
                                  (Some sample_link) (js "now"))
                   = Some (5, 5 + JsString.length sample_link)) by reflexivity.
      rewrite Hc in Hr. injection Hr as Hr _. now rewrite <- Hr. }
    vm_compute in Ht.
    unfold JsString.length in Hlen.
    do 5 (destruct a as [|? a]; [simpl in Hlen; lia|]).
    destruct a; [|simpl in Hlen; lia].
    simpl in Ht. injection Ht as <- <- <- <- <- _. reflexivity. }
  subst a. vm_compute in E. discriminate E.
Defined.
